(** * Rotary: quadrature decoder and push-button handling of rotary.cpp

    A shallow embedding of [rotary.h] / [rotary.cpp].  Unsigned chars and
    the 32-bit millisecond counter are integers of [Z]; the two transition
    tables are the literal arrays of the source; the member functions take
    the object and a snapshot of the board (pin levels, clock) and return
    the updated object together with their C++ return value. *)

From Stdlib Require Import ZArith List Bool Lia.
Import ListNotations.
Open Scope Z_scope.

(** ** rotary.h: values returned by [process] *)

Definition DIR_NONE : Z := 0x0.
Definition DIR_CW : Z := 0x10.
Definition DIR_CCW : Z := 0x20.

(** [#define HALF_STEP] selects one of the two tables at build time. *)
Inductive step_mode : Type := HalfStep | FullStep.

Definition R_START : Z := 0x0.

(** The [#ifdef HALF_STEP] branch of rotary.cpp. *)
Module Half.
Definition R_CCW_BEGIN : Z := 0x1.
Definition R_CW_BEGIN : Z := 0x2.
Definition R_START_M : Z := 0x3.
Definition R_CW_BEGIN_M : Z := 0x4.
Definition R_CCW_BEGIN_M : Z := 0x5.

Definition ttable : list (list Z) :=
  [ (* R_START (00) *)
    [R_START;                  R_CCW_BEGIN;  R_CW_BEGIN;    R_START_M];
    (* R_CCW_BEGIN *)
    [R_START;                  R_CCW_BEGIN;  R_START;       Z.lor R_START_M DIR_CCW];
    (* R_CW_BEGIN *)
    [R_START;                  R_START;      R_CW_BEGIN;    Z.lor R_START_M DIR_CW];
    (* R_START_M (11) *)
    [R_START;                  R_CW_BEGIN_M; R_CCW_BEGIN_M; R_START_M];
    (* R_CW_BEGIN_M *)
    [Z.lor R_START DIR_CW;     R_CW_BEGIN_M; R_START_M;     R_START_M];
    (* R_CCW_BEGIN_M *)
    [Z.lor R_START DIR_CCW;    R_START_M;    R_CCW_BEGIN_M; R_START_M] ].
End Half.

(** The [#else] branch of rotary.cpp. *)
Module Full.
Definition R_CW_FINAL : Z := 0x1.
Definition R_CW_BEGIN : Z := 0x2.
Definition R_CW_NEXT : Z := 0x3.
Definition R_CCW_BEGIN : Z := 0x4.
Definition R_CCW_FINAL : Z := 0x5.
Definition R_CCW_NEXT : Z := 0x6.

Definition ttable : list (list Z) :=
  [ (* R_START *)
    [R_START;                  R_CCW_BEGIN; R_CW_BEGIN;   R_START];
    (* R_CW_FINAL *)
    [Z.lor R_START DIR_CW;     R_CW_FINAL;  R_START;      R_CW_NEXT];
    (* R_CW_BEGIN *)
    [R_START;                  R_START;     R_CW_BEGIN;   R_CW_NEXT];
    (* R_CW_NEXT *)
    [R_START;                  R_CW_FINAL;  R_CW_BEGIN;   R_CW_NEXT];
    (* R_CCW_BEGIN *)
    [R_START;                  R_CCW_BEGIN; R_START;      R_CCW_NEXT];
    (* R_CCW_FINAL *)
    [Z.lor R_START DIR_CCW;    R_START;     R_CCW_FINAL;  R_CCW_NEXT];
    (* R_CCW_NEXT *)
    [R_START;                  R_CCW_BEGIN; R_CCW_FINAL;  R_CCW_NEXT] ].
End Full.

Definition ttable (m : step_mode) : list (list Z) :=
  match m with
  | HalfStep => Half.ttable
  | FullStep => Full.ttable
  end.

(** [ttable[i][j]]: an index outside the array has no defined value. *)
Definition ttable_at (m : step_mode) (i j : Z) : option Z :=
  if (i <? 0) || (j <? 0) then None
  else match nth_error (ttable m) (Z.to_nat i) with
       | Some row => nth_error row (Z.to_nat j)
       | None => None
       end.

(** ** The object and the board *)

Inductive level : Type := LOW | HIGH.

Definition level_val (l : level) : Z :=
  match l with LOW => 0 | HIGH => 1 end.

(** What one call can observe of the hardware: the level of every pin and
    the value of the millisecond counter (an [unsigned long], 32 bits). *)
Record Board : Type := mkBoard {
  digitalRead : Z -> level;
  millis : Z
}.

Record Rotary : Type := mkRotary {
  state : Z;
  pin1 : Z;
  pin2 : Z;
  buttonPin : Z;
  buttonState : Z;
  buttonTimer : Z
}.

Definition set_state (r : Rotary) (s : Z) : Rotary :=
  mkRotary s (pin1 r) (pin2 r) (buttonPin r) (buttonState r) (buttonTimer r).

Definition set_buttonState (r : Rotary) (b : Z) : Rotary :=
  mkRotary (state r) (pin1 r) (pin2 r) (buttonPin r) b (buttonTimer r).

Definition set_buttonTimer (r : Rotary) (t : Z) : Rotary :=
  mkRotary (state r) (pin1 r) (pin2 r) (buttonPin r) (buttonState r) t.

(** ** Rotary::init

    The constructors store the pin numbers and start the decoder in
    R_START (pin modes and pull-ups are outside the object). *)
Definition init (r : Rotary) (_pin1 _pin2 : Z) : Rotary :=
  mkRotary R_START _pin1 _pin2 (buttonPin r) (buttonState r) (buttonTimer r).

Definition clockwise : Z := DIR_CW.
Definition counterClockwise : Z := DIR_CCW.

(** ** Rotary::process *)

(** [(digitalRead(pin2) << 1) | digitalRead(pin1)]: each pin is read
    once, both from the snapshot of the call (the levels of two distinct
    pins at the time of the call). *)
Definition pinstate (hw : Board) (r : Rotary) : Z :=
  Z.lor (Z.shiftl (level_val (digitalRead hw (pin2 r))) 1)
        (level_val (digitalRead hw (pin1 r))).

(** The last two statements of [process], on the state byte and the pin
    sample: the new state and the returned emit bits. *)
Definition decode (m : step_mode) (st ps : Z) : option (Z * Z) :=
  match ttable_at m (Z.land st 0xf) ps with
  | Some st' => Some (st', Z.land st' 0x30)
  | None => None
  end.

Definition process (m : step_mode) (hw : Board) (r : Rotary)
  : option (Rotary * Z) :=
  match decode m (state r) (pinstate hw r) with
  | Some (st', d) => Some (set_state r st', d)
  | None => None
  end.

(** Successive calls of [process], one pin sample per call: the final
    state and the values returned, in call order. *)
Fixpoint run (m : step_mode) (st : Z) (samples : list Z)
  : option (Z * list Z) :=
  match samples with
  | [] => Some (st, [])
  | p :: rest =>
      match decode m st p with
      | None => None
      | Some (st', d) =>
          match run m st' rest with
          | None => None
          | Some (final, ds) => Some (final, d :: ds)
          end
      end
  end.

Definition sample (p : Z) : Prop := 0 <= p < 4.

(** States the decoder can be in after [init] and any number of calls. *)
Inductive reachable (m : step_mode) : Z -> Prop :=
| reach_init : reachable m R_START
| reach_step : forall st p st' d,
    reachable m st -> sample p -> decode m st p = Some (st', d) ->
    reachable m st'.

(** Number of occurrences of an event in the returned values. *)
Definition events (d : Z) (ds : list Z) : nat :=
  length (filter (Z.eqb d) ds).

(** How many times event [d] is returned over a run from R_START. *)
Definition count_events (m : step_mode) (samples : list Z) (d : Z)
  : option nat :=
  match run m R_START samples with
  | Some (_, ds) => Some (events d ds)
  | None => None
  end.

(** Number of rows of the table in use (6 or 7). *)
Definition rows (m : step_mode) : Z := Z.of_nat (length (ttable m)).

(** All transitions of the table in use, as (row, sample, new state,
    returned value), computed from [decode] itself. *)
Definition transitions (m : step_mode) : list (Z * Z * Z * Z) :=
  flat_map (fun i =>
    flat_map (fun j =>
      match decode m i j with
      | Some (st', d) => [(i, j, st', d)]
      | None => []
      end) [0; 1; 2; 3])
    [0; 1; 2; 3; 4; 5; 6; 7; 8; 9; 10; 11; 12; 13; 14; 15].

(** *** Vocabulary of the decoder's properties *)

(** The table row a state byte selects: [state & 0xf]. *)
Definition row (st : Z) : Z := Z.land st 0xf.

(** Rows at a detent: R_START, and in half-step mode also R_START_M. *)
Definition settled (m : step_mode) (st : Z) : bool :=
  (row st =? R_START) ||
  match m with
  | HalfStep => row st =? Half.R_START_M
  | FullStep => false
  end.

(** Two successive samples that differ in both bits: a gray-code
    neighbour was skipped. *)
Definition jump (q p : Z) : bool := Z.lxor q p =? 3.

(** Rows selected before each call of a run, the starting row first and
    the row reached by the last call last. *)
Fixpoint visited (m : step_mode) (st : Z) (samples : list Z) : list Z :=
  row st ::
  match samples with
  | [] => []
  | p :: rest =>
      match decode m st p with
      | Some (st', _) => visited m st' rest
      | None => []
      end
  end.

(** [subseq c l]: the elements of [c] occur in [l] in the same order. *)
Fixpoint subseq (c l : list Z) : Prop :=
  match c, l with
  | [], _ => True
  | _ :: _, [] => False
  | x :: c', y :: l' => (x = y /\ subseq c' l') \/ subseq c l'
  end.

(** The order of rows named by the state constants of rotary.cpp for an
    event [d] completed by sample [p]: the detent the movement leaves and
    the intermediate rows up to the completing sample. *)
Definition canonical (m : step_mode) (d p : Z) : option (Z * list Z) :=
  match m with
  | FullStep =>
      if p =? 0 then
        if d =? DIR_CW then
          Some (R_START, [Full.R_CW_BEGIN; Full.R_CW_NEXT; Full.R_CW_FINAL])
        else if d =? DIR_CCW then
          Some (R_START, [Full.R_CCW_BEGIN; Full.R_CCW_NEXT; Full.R_CCW_FINAL])
        else None
      else None
  | HalfStep =>
      if p =? 3 then
        if d =? DIR_CW then Some (R_START, [Half.R_CW_BEGIN])
        else if d =? DIR_CCW then Some (R_START, [Half.R_CCW_BEGIN])
        else None
      else if p =? 0 then
        if d =? DIR_CW then Some (Half.R_START_M, [Half.R_CW_BEGIN_M])
        else if d =? DIR_CCW then Some (Half.R_START_M, [Half.R_CCW_BEGIN_M])
        else None
      else None
  end.

(** The movement an intermediate row belongs to: the detent it left and
    the rows of that movement in order.  Detent rows belong to none. *)
Definition chain_of (m : step_mode) (r : Z) : option (Z * list Z) :=
  match m with
  | FullStep =>
      if (r =? Full.R_CW_BEGIN) || (r =? Full.R_CW_NEXT)
         || (r =? Full.R_CW_FINAL) then
        Some (R_START, [Full.R_CW_BEGIN; Full.R_CW_NEXT; Full.R_CW_FINAL])
      else if (r =? Full.R_CCW_BEGIN) || (r =? Full.R_CCW_NEXT)
              || (r =? Full.R_CCW_FINAL) then
        Some (R_START, [Full.R_CCW_BEGIN; Full.R_CCW_NEXT; Full.R_CCW_FINAL])
      else None
  | HalfStep =>
      if r =? Half.R_CW_BEGIN then Some (R_START, [Half.R_CW_BEGIN])
      else if r =? Half.R_CCW_BEGIN then Some (R_START, [Half.R_CCW_BEGIN])
      else if r =? Half.R_CW_BEGIN_M then
        Some (Half.R_START_M, [Half.R_CW_BEGIN_M])
      else if r =? Half.R_CCW_BEGIN_M then
        Some (Half.R_START_M, [Half.R_CCW_BEGIN_M])
      else None
  end.

(** The part of a movement up to and including row [x]. *)
Fixpoint upto (x : Z) (c : list Z) : list Z :=
  match c with
  | [] => []
  | y :: c' => if y =? x then [y] else y :: upto x c'
  end.

(** [prefixb a b]: list [a] is an initial part of [b]. *)
Fixpoint prefixb (a b : list Z) : bool :=
  match a, b with
  | [], _ => true
  | x :: a', y :: b' => (x =? y) && prefixb a' b'
  | _ :: _, [] => false
  end.

(** The pin code at which the encoder rests while the decoder is in an
    intermediate row (the only sample on which the table enters it). *)
Definition code (m : step_mode) (st : Z) : Z :=
  match m with
  | HalfStep =>
      if row st =? Half.R_CCW_BEGIN then 1
      else if row st =? Half.R_CW_BEGIN then 2
      else if row st =? Half.R_CW_BEGIN_M then 1
      else if row st =? Half.R_CCW_BEGIN_M then 2
      else if row st =? Half.R_START_M then 3
      else 0
  | FullStep =>
      if row st =? Full.R_CW_FINAL then 1
      else if row st =? Full.R_CW_BEGIN then 2
      else if row st =? Full.R_CW_NEXT then 3
      else if row st =? Full.R_CCW_BEGIN then 1
      else if row st =? Full.R_CCW_FINAL then 2
      else if row st =? Full.R_CCW_NEXT then 3
      else 0
  end.

(** ** The push button *)

Definition BUTTON_RESET : Z := 0x00.
Definition BUTTON_PRESSED : Z := 0x01.
Definition BUTTON_RELEASED : Z := 0x10.
Definition BUTTON_PRESSED_RELEASED : Z := 0x11.

(** Conversion to [unsigned long] (32 bits on the Arduino targets). *)
Definition to_ulong (x : Z) : Z := x mod 2 ^ 32.

(** A [short] argument. *)
Definition short (d : Z) : Prop := - 32768 <= d <= 32767.

(** [if (digitalRead(pin))]: any non-zero level. *)
Definition reads_high (hw : Board) (pin : Z) : bool :=
  negb (level_val (digitalRead hw pin) =? 0).

(** [millis() - buttonTimer > delay]: the subtraction is done in
    [unsigned long], and the [short] delay is converted to it. *)
Definition timer_expired (hw : Board) (r : Rotary) (delay : Z) : bool :=
  to_ulong delay <? to_ulong (millis hw - buttonTimer r).

Definition buttonPressedReleased (debounce_delay : Z) (hw : Board) (r : Rotary)
  : Rotary * bool :=
  let r1 :=
    if buttonState r =? BUTTON_PRESSED then
      if timer_expired hw r debounce_delay then
        if reads_high hw (buttonPin r) then
          set_buttonState r (Z.lor (buttonState r) BUTTON_RELEASED)
        else r
      else r
    else
      if negb (reads_high hw (buttonPin r)) then
        set_buttonTimer
          (set_buttonState r (Z.lor (buttonState r) BUTTON_PRESSED))
          (millis hw)
      else r in
  if buttonState r1 =? Z.lor BUTTON_PRESSED BUTTON_RELEASED then
    (set_buttonState r1 0x00, true)
  else (r1, false).

Definition buttonPressedHeld (delay_millis : Z) (hw : Board) (r : Rotary)
  : Rotary * bool :=
  if negb (reads_high hw (buttonPin r)) then
    if negb (buttonState r =? BUTTON_PRESSED) then
      (set_buttonTimer (set_buttonState r BUTTON_PRESSED) (millis hw), false)
    else
      if timer_expired hw r delay_millis then
        (set_buttonState r BUTTON_RESET, true)
      else (r, false)
  else
    if buttonState r =? BUTTON_PRESSED then
      (set_buttonState r BUTTON_RESET, false)
    else (r, false).

Definition readButton (hw : Board) (r : Rotary) : Rotary * Z :=
  if reads_high hw (buttonPin r) then (r, BUTTON_RELEASED)
  else (r, BUTTON_PRESSED).

Definition resetButton (r : Rotary) : Rotary :=
  set_buttonState r BUTTON_RESET.

(** The host loop: one call of a button query per board snapshot; the
    object after the last call and the booleans returned, in call order. *)
Fixpoint poll (query : Board -> Rotary -> Rotary * bool)
  (boards : list Board) (r : Rotary) : Rotary * list bool :=
  match boards with
  | [] => (r, [])
  | hw :: rest =>
      let (r1, b) := query hw r in
      let (r2, bs) := poll query rest r1 in
      (r2, b :: bs)
  end.

(** The board at tick [t] of a once-per-millisecond loop started when the
    counter read [epoch]: every pin shows the button line, and the
    counter wraps at 2^32. *)
Definition tick_board (epoch : Z) (line : nat -> level) (t : nat) : Board :=
  mkBoard (fun _ => line t) (to_ulong (epoch + Z.of_nat t)).

(** The boards of ticks [from], [from+1], ..., [from+n-1]. *)
Definition ticks (epoch : Z) (line : nat -> level) (from n : nat)
  : list Board :=
  map (tick_board epoch line) (seq from n).

(** Line closed throughout. *)
Definition held_line : nat -> level := fun _ => LOW.

(** Line closed through tick [d], open afterwards. *)
Definition released_after (d : nat) : nat -> level :=
  fun t => if (t <=? d)%nat then LOW else HIGH.

(** *** Vocabulary of the encoder's movement

    The codes follow each other clockwise in the order 00, 10, 11, 01 of
    the header comment of rotary.cpp. *)

(** The code one quarter step clockwise of [q]. *)
Definition cw_next (q : Z) : Z :=
  if q =? 0 then 2 else if q =? 2 then 3 else if q =? 3 then 1
  else if q =? 1 then 0 else q.

(** The quarter steps from code [q] to code [p]: +1 clockwise, -1
    counter-clockwise, 0 when nothing moved (or for a two-bit jump, whose
    direction is unknown). *)
Definition quarter (q p : Z) : Z :=
  if q =? p then 0
  else if cw_next q =? p then 1
  else if cw_next p =? q then -1
  else 0.

(** Quarter steps travelled by the encoder over the samples, counted
    clockwise, when the pins read [last] before the first of them. *)
Fixpoint position (last : Z) (samples : list Z) : Z :=
  match samples with
  | [] => 0
  | p :: rest => quarter last p + position p rest
  end.

(** No sample is a two-bit jump from the one before it. *)
Fixpoint legal (last : Z) (samples : list Z) : bool :=
  match samples with
  | [] => true
  | p :: rest => negb (jump last p) && legal p rest
  end.

(** Legal, and the encoder never moves counter-clockwise. *)
Fixpoint forward (last : Z) (samples : list Z) : bool :=
  match samples with
  | [] => true
  | p :: rest =>
      negb (jump last p) && (0 <=? quarter last p) && forward p rest
  end.

(** An event as a signed step, and the signed sum of the events. *)
Definition turn (d : Z) : Z :=
  if d =? DIR_CW then 1 else if d =? DIR_CCW then -1 else 0.

Definition net (ds : list Z) : Z :=
  fold_right (fun d acc => turn d + acc) 0 ds.

(** Quarter steps per event: a full detent, or half of one. *)
Definition per (m : step_mode) : Z :=
  match m with HalfStep => 2 | FullStep => 4 end.

(** Quarter steps a row lies clockwise of the detent its movement left. *)
Definition offset (m : step_mode) (st : Z) : Z :=
  match m with
  | HalfStep =>
      if (row st =? Half.R_CW_BEGIN) || (row st =? Half.R_CW_BEGIN_M) then 1
      else if (row st =? Half.R_CCW_BEGIN) || (row st =? Half.R_CCW_BEGIN_M)
      then -1
      else 0
  | FullStep =>
      if row st =? Full.R_CW_BEGIN then 1
      else if row st =? Full.R_CW_NEXT then 2
      else if row st =? Full.R_CW_FINAL then 3
      else if row st =? Full.R_CCW_BEGIN then -1
      else if row st =? Full.R_CCW_NEXT then -2
      else if row st =? Full.R_CCW_FINAL then -3
      else 0
  end.

(** The sample read when the two encoder wires are exchanged. *)
Definition swap_pins (p : Z) : Z :=
  if p =? 1 then 2 else if p =? 2 then 1 else p.

(** The opposite event. *)
Definition mirror_dir (d : Z) : Z :=
  if d =? DIR_CW then DIR_CCW else if d =? DIR_CCW then DIR_CW else DIR_NONE.

(** The row of the opposite movement. *)
Definition mirror_row (m : step_mode) (r : Z) : Z :=
  match m with
  | HalfStep =>
      if r =? Half.R_CW_BEGIN then Half.R_CCW_BEGIN
      else if r =? Half.R_CCW_BEGIN then Half.R_CW_BEGIN
      else if r =? Half.R_CW_BEGIN_M then Half.R_CCW_BEGIN_M
      else if r =? Half.R_CCW_BEGIN_M then Half.R_CW_BEGIN_M
      else r
  | FullStep =>
      if r =? Full.R_CW_BEGIN then Full.R_CCW_BEGIN
      else if r =? Full.R_CCW_BEGIN then Full.R_CW_BEGIN
      else if r =? Full.R_CW_NEXT then Full.R_CCW_NEXT
      else if r =? Full.R_CCW_NEXT then Full.R_CW_NEXT
      else if r =? Full.R_CW_FINAL then Full.R_CCW_FINAL
      else if r =? Full.R_CCW_FINAL then Full.R_CW_FINAL
      else r
  end.

(** The state byte of the opposite movement: row and emit bits. *)
Definition mirror_state (m : step_mode) (st : Z) : Z :=
  Z.lor (mirror_row m (row st)) (mirror_dir (Z.land st 0x30)).


(** *** Vocabulary of the button's properties *)

(** Number of calls that returned true. *)
Definition reports (bs : list bool) : nat := length (filter id bs).

(** Number of boards on which [pin] reads low. *)
Definition closed_readings (pin : Z) (boards : list Board) : nat :=
  length (filter (fun hw => negb (reads_high hw pin)) boards).

(** The two values buttonState has between calls. *)
Definition idle_or_pressed (r : Rotary) : Prop :=
  buttonState r = BUTTON_RESET \/ buttonState r = BUTTON_PRESSED.

(** Line closed at ticks 0 .. [len - 1], open from tick [len] on. *)
Definition closed_for (len : nat) : nat -> level :=
  fun t => if (t <? len)%nat then LOW else HIGH.

(** The calls a host can make on the button, and a host loop that makes
    any of them, one per board snapshot. *)
Inductive button_call : Type :=
| CallPressedReleased (debounce_delay : Z)
| CallPressedHeld (delay_millis : Z)
| CallReadButton
| CallResetButton.

Definition perform (c : button_call) (hw : Board) (r : Rotary) : Rotary :=
  match c with
  | CallPressedReleased d => fst (buttonPressedReleased d hw r)
  | CallPressedHeld d => fst (buttonPressedHeld d hw r)
  | CallReadButton => fst (readButton hw r)
  | CallResetButton => resetButton r
  end.

Fixpoint perform_all (calls : list (button_call * Board)) (r : Rotary)
  : Rotary :=
  match calls with
  | [] => r
  | (c, hw) :: rest => perform_all rest (perform c hw r)
  end.

(** * Properties of the decoder *)

Section TableFacts.

Lemma row_range (st : Z) : 0 <= row st < 16.
Proof.
  unfold row. change 0xf with (Z.ones 4).
  rewrite Z.land_ones by lia. apply Z.mod_pos_bound. lia.
Qed.

Lemma row_idem (st : Z) : row (row st) = row st.
Proof.
  unfold row. rewrite <- Z.land_assoc. reflexivity.
Qed.

Lemma decode_row (m : step_mode) (st p : Z) :
  decode m st p = decode m (row st) p.
Proof.
  unfold decode. fold (row st). fold (row (row st)).
  rewrite row_idem. reflexivity.
Qed.

Lemma pinstate_sample (hw : Board) (r : Rotary) : sample (pinstate hw r).
Proof.
  unfold pinstate, sample.
  destruct (digitalRead hw (pin2 r)), (digitalRead hw (pin1 r));
    cbn; lia.
Qed.

(** A successful lookup is one of the listed transitions. *)
Lemma decode_In (m : step_mode) (st p st' d : Z) :
  decode m st p = Some (st', d) ->
  In (row st, p, st', d) (transitions m).
Proof.
  intros H. rewrite decode_row in H.
  pose proof (row_range st) as Hr.
  remember (row st) as i eqn:Ei. clear Ei.
  assert (Hp : 0 <= p < 4).
  { unfold decode, ttable_at in H.
    destruct (p <? 0) eqn:Ep.
    - rewrite orb_true_r in H. discriminate.
    - apply Z.ltb_ge in Ep. split; [exact Ep|].
      rewrite orb_false_r in H.
      cbn [orb] in H.
      destruct (Z.land i 15 <? 0); [discriminate|].
      destruct (nth_error (ttable m) (Z.to_nat (Z.land i 15)))
        as [rw|] eqn:En; [|discriminate].
      destruct (nth_error rw (Z.to_nat p)) as [e|] eqn:Ee; [|discriminate].
      assert (Hlen : length rw = 4%nat).
      { apply nth_error_In in En.
        destruct m; cbn in En; intuition (subst; reflexivity). }
      assert (Hlt : (Z.to_nat p < length rw)%nat).
      { apply nth_error_Some. congruence. }
      lia. }
  assert (Hi : i = 0 \/ i = 1 \/ i = 2 \/ i = 3 \/ i = 4 \/ i = 5 \/ i = 6 \/
               i = 7 \/ i = 8 \/ i = 9 \/ i = 10 \/ i = 11 \/ i = 12 \/
               i = 13 \/ i = 14 \/ i = 15) by lia.
  assert (Hj : p = 0 \/ p = 1 \/ p = 2 \/ p = 3) by lia.
  clear Hr Hp.
  destruct m;
    repeat (destruct Hi as [Hi | Hi]; [subst i|]); try subst i;
    repeat (destruct Hj as [Hj | Hj]; [subst p|]); try subst p;
    vm_compute in H; try discriminate;
    injection H as <- <-; vm_compute; tauto.
Qed.

End TableFacts.

(** Case analysis over the table: from [H : decode m st p = Some (st', d)]
    one goal per transition, with [row st], [p], [st'] and [d] known. *)
Ltac by_table H :=
  match type of H with
  | decode ?m ?st ?p = Some (?s', ?d) =>
      let HIn := fresh "HIn" in
      let i := fresh "i" in
      let Ei := fresh "Erow" in
      let j := fresh "j" in
      let Ej := fresh "Esample" in
      pose proof (decode_In m st p s' d H) as HIn;
      remember (row st) as i eqn:Ei in HIn;
      remember p as j eqn:Ej in HIn;
      tryif is_var m then destruct m else idtac;
      vm_compute in HIn;
      repeat (destruct HIn as [HIn | HIn];
              [injection HIn as <- <- <- <- | ]);
      try contradiction;
      try discriminate Ej;
      tryif is_var p then try subst p else idtac
  end.

Lemma run_app (m : step_mode) (l1 l2 : list Z) (st : Z) :
  run m st (l1 ++ l2) =
  match run m st l1 with
  | None => None
  | Some (st1, ds1) =>
      match run m st1 l2 with
      | None => None
      | Some (st2, ds2) => Some (st2, ds1 ++ ds2)
      end
  end.
Proof.
  revert st. induction l1 as [|p l1 IH]; intros st; cbn [run app].
  - destruct (run m st l2) as [[st2 ds2]|]; reflexivity.
  - destruct (decode m st p) as [[st' d]|]; [|reflexivity].
    rewrite IH. destruct (run m st' l1) as [[st1 ds1]|]; [|reflexivity].
    destruct (run m st1 l2) as [[st2 ds2]|]; reflexivity.
Qed.

Lemma reachable_run (m : step_mode) (samples : list Z) :
  forall st final ds,
    reachable m st -> Forall sample samples ->
    run m st samples = Some (final, ds) -> reachable m final.
Proof.
  induction samples as [|p rest IH]; intros st final ds Hst Hs Hrun.
  - cbn in Hrun. injection Hrun as <- _. exact Hst.
  - cbn [run] in Hrun. inversion Hs as [|? ? Hp Hrest]; subst.
    destruct (decode m st p) as [[st' d]|] eqn:Hd; [|discriminate].
    destruct (run m st' rest) as [[f ds']|] eqn:Hr; [|discriminate].
    injection Hrun as <- _.
    eapply IH; [| exact Hrest | exact Hr].
    eapply reach_step; eauto.
Qed.

(** Every reachable state selects a row of the table. *)
Lemma reachable_row (m : step_mode) (st : Z) :
  reachable m st -> 0 <= row st < rows m.
Proof.
  intros H. destruct H as [|st p st' d _ _ Hd].
  - destruct m; vm_compute; intuition discriminate.
  - by_table Hd; vm_compute; intuition discriminate.
Qed.

Lemma decode_total (m : step_mode) (st p : Z) :
  0 <= row st < rows m -> sample p ->
  exists st' d, decode m st p = Some (st', d).
Proof.
  intros Hr Hp. rewrite decode_row.
  remember (row st) as i eqn:Ei. clear Ei. unfold sample in Hp.
  assert (Hj : p = 0 \/ p = 1 \/ p = 2 \/ p = 3) by lia.
  destruct m; cbn in Hr.
  - assert (Hi : i = 0 \/ i = 1 \/ i = 2 \/ i = 3 \/ i = 4 \/ i = 5) by lia.
    repeat (destruct Hi as [Hi | Hi]; [subst i|]); try subst i;
      repeat (destruct Hj as [Hj | Hj]; [subst p|]); try subst p;
      vm_compute; eauto.
  - assert (Hi : i = 0 \/ i = 1 \/ i = 2 \/ i = 3 \/ i = 4 \/ i = 5 \/ i = 6)
      by lia.
    repeat (destruct Hi as [Hi | Hi]; [subst i|]); try subst i;
      repeat (destruct Hj as [Hj | Hj]; [subst p|]); try subst p;
      vm_compute; eauto.
Qed.

Lemma run_total (m : step_mode) (samples : list Z) :
  forall st, reachable m st -> Forall sample samples ->
  exists final ds, run m st samples = Some (final, ds).
Proof.
  induction samples as [|p rest IH]; intros st Hst Hs.
  - cbn. eauto.
  - inversion Hs as [|? ? Hp Hrest]; subst.
    destruct (decode_total m st p (reachable_row m st Hst) Hp)
      as (st' & d & Hd).
    destruct (IH st' (reach_step m st p st' d Hst Hp Hd) Hrest)
      as (final & ds & Hr).
    cbn [run]. rewrite Hd, Hr. eauto.
Qed.

(** C1. From R_START the clean sequence 00,10,11,01,00 returns one
    Clockwise event and no CounterClockwise event in full-step mode, and
    two Clockwise events in half-step mode, one at sample 11 and one at
    sample 00; the mirror sequence 00,01,11,10,00 returns the same numbers
    of CounterClockwise events and no Clockwise event. *)
Theorem clean_traversal_events :
  (run FullStep R_START [0; 2; 3; 1; 0]
     = Some (Z.lor R_START DIR_CW,
             [DIR_NONE; DIR_NONE; DIR_NONE; DIR_NONE; DIR_CW]) /\
   count_events FullStep [0; 2; 3; 1; 0] DIR_CW = Some 1%nat /\
   count_events FullStep [0; 2; 3; 1; 0] DIR_CCW = Some 0%nat) /\
  (run FullStep R_START [0; 1; 3; 2; 0]
     = Some (Z.lor R_START DIR_CCW,
             [DIR_NONE; DIR_NONE; DIR_NONE; DIR_NONE; DIR_CCW]) /\
   count_events FullStep [0; 1; 3; 2; 0] DIR_CCW = Some 1%nat /\
   count_events FullStep [0; 1; 3; 2; 0] DIR_CW = Some 0%nat) /\
  (run HalfStep R_START [0; 2; 3; 1; 0]
     = Some (Z.lor R_START DIR_CW,
             [DIR_NONE; DIR_NONE; DIR_CW; DIR_NONE; DIR_CW]) /\
   count_events HalfStep [0; 2; 3; 1; 0] DIR_CW = Some 2%nat /\
   count_events HalfStep [0; 2; 3; 1; 0] DIR_CCW = Some 0%nat) /\
  (run HalfStep R_START [0; 1; 3; 2; 0]
     = Some (Z.lor R_START DIR_CCW,
             [DIR_NONE; DIR_NONE; DIR_CCW; DIR_NONE; DIR_CCW]) /\
   count_events HalfStep [0; 1; 3; 2; 0] DIR_CCW = Some 2%nat /\
   count_events HalfStep [0; 1; 3; 2; 0] DIR_CW = Some 0%nat).
Proof.
  repeat split; reflexivity.
Qed.

(** C5. For every reachable state and every 2-bit sample the lookup
    [ttable[state & 0xf][sample]] is inside the array: the low nibble of
    the initial state and of every table entry is a row index (below 6 in
    half-step mode, below 7 in full-step mode), so [process] is defined on
    every board and the transition function is total on reachable
    states. *)
Theorem lookup_in_bounds (m : step_mode) (st p : Z) :
  reachable m st -> sample p ->
  rows m = (match m with HalfStep => 6 | FullStep => 7 end) /\
  (forall r0 a b, 0 <= row (state (init r0 a b)) < rows m) /\
  Forall (Forall (fun e => 0 <= row e < rows m)) (ttable m) /\
  0 <= row st < rows m /\
  (exists e, ttable_at m (row st) p = Some e /\ 0 <= row e < rows m) /\
  (forall (hw : Board) (r : Rotary),
     state r = st ->
     exists r' d, process m hw r = Some (r', d) /\ reachable m (state r')).
Proof.
  intros Hst Hp.
  pose proof (reachable_row m st Hst) as Hrow.
  split; [destruct m; reflexivity|].
  split; [intros r0 a b; destruct m; vm_compute; intuition discriminate|].
  split.
  { destruct m; repeat constructor; vm_compute; discriminate. }
  split; [exact Hrow|].
  split.
  - destruct (decode_total m st p Hrow Hp) as (st' & d & Hd).
    exists st'. split.
    + unfold decode in Hd. fold (row st) in Hd.
      destruct (ttable_at m (row st) p); [|discriminate].
      injection Hd as -> _. reflexivity.
    + apply reachable_row. eapply reach_step; eauto.
  - intros hw r Hr. subst st.
    pose proof (pinstate_sample hw r) as Hs.
    destruct (decode_total m (state r) (pinstate hw r) Hrow Hs)
      as (st' & d & Hd).
    unfold process. rewrite Hd. eexists. eexists. split; [reflexivity|].
    cbn. eapply reach_step; eauto.
Qed.

Lemma lookup_in_bounds_witness :
  reachable HalfStep 0x13 /\ sample 1 /\
  exists e, ttable_at HalfStep (row 0x13) 1 = Some e /\
            0 <= row e < rows HalfStep.
Proof.
  assert (Hr : reachable HalfStep 0x13).
  { apply (reach_step HalfStep 2 3 0x13 DIR_CW); [|vm_compute; intuition discriminate|reflexivity].
    apply (reach_step HalfStep R_START 2 2 DIR_NONE);
      [apply reach_init|vm_compute; intuition discriminate|reflexivity]. }
  assert (Hs : sample 1) by (vm_compute; intuition discriminate).
  split; [exact Hr|]. split; [exact Hs|].
  exact (proj1 (proj2 (proj2 (proj2 (proj2
           (lookup_in_bounds HalfStep 0x13 1 Hr Hs)))))).
Defined.

(** C8. Every value returned by [process] is DIR_NONE (0x00), DIR_CW
    (0x10) or DIR_CCW (0x20); the two direction flags are never both set;
    and the value is the newly stored state masked with 0x30. *)
Theorem process_returns_one_direction
  (m : step_mode) (hw : Board) (r : Rotary) :
  reachable m (state r) ->
  exists r' d,
    process m hw r = Some (r', d) /\
    (d = DIR_NONE \/ d = DIR_CW \/ d = DIR_CCW) /\
    (Z.land d DIR_CW =? DIR_CW) && (Z.land d DIR_CCW =? DIR_CCW) = false /\
    d = Z.land (state r') 0x30.
Proof.
  intros Hr.
  destruct (decode_total m (state r) (pinstate hw r)
              (reachable_row m (state r) Hr) (pinstate_sample hw r))
    as (st' & d & Hd).
  exists (set_state r st'), d. unfold process. rewrite Hd.
  split; [reflexivity|]. cbn [state set_state].
  by_table Hd; vm_compute; intuition discriminate.
Qed.

Lemma process_returns_one_direction_witness :
  let hw := mkBoard (fun _ => HIGH) 0 in
  let r := mkRotary Half.R_CW_BEGIN 2 3 4 0 0 in
  reachable HalfStep (state r) /\
  exists r' d,
    process HalfStep hw r = Some (r', d) /\
    (d = DIR_NONE \/ d = DIR_CW \/ d = DIR_CCW) /\
    (Z.land d DIR_CW =? DIR_CW) && (Z.land d DIR_CCW =? DIR_CCW) = false /\
    d = Z.land (state r') 0x30.
Proof.
  intros hw r.
  assert (Hr : reachable HalfStep (state r)).
  { apply (reach_step HalfStep R_START 2 Half.R_CW_BEGIN DIR_NONE);
      [apply reach_init | split; [discriminate | reflexivity] | reflexivity]. }
  split; [exact Hr|].
  exact (process_returns_one_direction HalfStep hw r Hr).
Defined.

(** C6, as stated, fails: in half-step mode R_CCW_BEGIN is reachable
    (sample 01 from R_START); sample 10 sends it to R_START, and the same
    sample 10 again sends R_START on to R_CW_BEGIN, so the second of two
    calls with an unchanged sample does change the state. *)
Lemma repeated_sample_moves_state :
  reachable HalfStep Half.R_CCW_BEGIN /\ sample 2 /\
  decode HalfStep Half.R_CCW_BEGIN 2 = Some (R_START, DIR_NONE) /\
  decode HalfStep R_START 2 = Some (Half.R_CW_BEGIN, DIR_NONE) /\
  row Half.R_CW_BEGIN <> row R_START /\
  ~ (forall st p s1 d1 s2 d2,
       reachable HalfStep st -> sample p ->
       decode HalfStep st p = Some (s1, d1) ->
       decode HalfStep s1 p = Some (s2, d2) ->
       row s2 = row s1 /\ d2 = DIR_NONE).
Proof.
  assert (Hr : reachable HalfStep Half.R_CCW_BEGIN).
  { apply (reach_step HalfStep R_START 1 Half.R_CCW_BEGIN DIR_NONE);
      [apply reach_init | vm_compute; intuition discriminate | reflexivity]. }
  assert (Hs : sample 2) by (vm_compute; intuition discriminate).
  repeat split; try assumption; try reflexivity; try discriminate.
  intros H.
  destruct (H Half.R_CCW_BEGIN 2 R_START DIR_NONE Half.R_CW_BEGIN DIR_NONE
              Hr Hs eq_refl eq_refl) as [Hrow _].
  discriminate Hrow.
Qed.

(** C6, amended. For every reachable state, when [process] is called
    repeatedly with one unchanged sample, every call after the first
    returns DIR_NONE and every call after the second leaves the state
    unchanged; the second call already keeps the row reached by the first
    (only the emit bits are cleared) whenever the first call started at a
    detent or its sample was not a two-bit jump away from the pin code of
    the intermediate row it started in. *)
Theorem repeated_sample_settles (m : step_mode) (st p : Z) :
  reachable m st -> sample p ->
  exists s1 d1 s2,
    decode m st p = Some (s1, d1) /\
    decode m s1 p = Some (s2, DIR_NONE) /\
    decode m s2 p = Some (s2, DIR_NONE) /\
    (settled m st = true \/ jump (code m st) p = false -> s2 = row s1).
Proof.
  intros Hr Hp.
  destruct (decode_total m st p (reachable_row m st Hr) Hp)
    as (s1 & d1 & H1).
  pose proof (reach_step m st p s1 d1 Hr Hp H1) as Hr1.
  destruct (decode_total m s1 p (reachable_row m s1 Hr1) Hp)
    as (s2 & d2 & H2).
  pose proof (reach_step m s1 p s2 d2 Hr1 Hp H2) as Hr2.
  destruct (decode_total m s2 p (reachable_row m s2 Hr2) Hp)
    as (s3 & d3 & H3).
  exists s1, d1, s2. split; [exact H1|].
  clear Hr Hr1 Hr2 Hp.
  by_table H1;
    unfold settled, code; rewrite <- Erow;
    vm_compute in H2; injection H2 as <- <-;
    vm_compute in H3; injection H3 as <- <-;
    vm_compute; intuition discriminate.
Qed.

Lemma repeated_sample_settles_witness :
  reachable HalfStep Half.R_CCW_BEGIN /\ sample 2 /\
  exists s1 d1 s2,
    decode HalfStep Half.R_CCW_BEGIN 2 = Some (s1, d1) /\
    decode HalfStep s1 2 = Some (s2, DIR_NONE) /\
    decode HalfStep s2 2 = Some (s2, DIR_NONE) /\
    (settled HalfStep Half.R_CCW_BEGIN = true \/
     jump (code HalfStep Half.R_CCW_BEGIN) 2 = false -> s2 = row s1).
Proof.
  assert (Hr : reachable HalfStep Half.R_CCW_BEGIN).
  { apply (reach_step HalfStep R_START 1 Half.R_CCW_BEGIN DIR_NONE);
      [apply reach_init | split; [discriminate | reflexivity] | reflexivity]. }
  assert (Hs : sample 2) by (split; [discriminate | reflexivity]).
  split; [exact Hr|]. split; [exact Hs|].
  exact (repeated_sample_settles HalfStep Half.R_CCW_BEGIN 2 Hr Hs).
Defined.

(** ** Order of the rows visited *)

Section Traversal.

Lemma subseq_nil_l (l : list Z) : subseq [] l.
Proof. destruct l; exact I. Qed.

Lemma subseq_snoc (c l : list Z) (x : Z) :
  subseq c l -> subseq (c ++ [x]) (l ++ [x]).
Proof.
  revert c. induction l as [|y l IH]; intros c H.
  - destruct c as [|a c]; [|contradiction].
    cbn. left. split; [reflexivity | exact I].
  - destruct c as [|a c].
    + cbn [app]. change (subseq [x] (y :: (l ++ [x]))).
      cbn. right. apply (IH [] (subseq_nil_l l)).
    + cbn in H. cbn [app]. cbn.
      destruct H as [[-> H] | H].
      * left. split; [reflexivity | apply IH; exact H].
      * right. apply (IH (a :: c)). exact H.
Qed.

Lemma subseq_prefix (a : list Z) :
  forall c l, prefixb a c = true -> subseq c l -> subseq a l.
Proof.
  induction a as [|x a IH]; intros c l Hp Hs; [apply subseq_nil_l|].
  destruct c as [|y c]; [discriminate|].
  cbn in Hp. apply andb_true_iff in Hp as [Hxy Hp].
  apply Z.eqb_eq in Hxy. subst y.
  induction l as [|z l IHl]; [contradiction|].
  cbn in Hs. cbn. destruct Hs as [[-> Hs] | Hs].
  - left. split; [reflexivity | eapply IH; eauto].
  - right. apply IHl. exact Hs.
Qed.

(** One more row keeps the order visited so far, and may extend it. *)
Lemma subseq_step (c c' l : list Z) (x : Z) :
  subseq c l -> prefixb c' (c ++ [x]) = true -> subseq c' (l ++ [x]).
Proof.
  intros Hs Hp. eapply subseq_prefix; [exact Hp|].
  apply subseq_snoc. exact Hs.
Qed.

Lemma visited_snoc (m : step_mode) (pre : list Z) (p : Z) :
  forall st s ds s' d,
    run m st pre = Some (s, ds) -> decode m s p = Some (s', d) ->
    visited m st (pre ++ [p]) = visited m st pre ++ [row s'].
Proof.
  induction pre as [|a pre IH]; intros st s ds s' d Hrun Hd.
  - cbn in Hrun. injection Hrun as <- _. cbn. rewrite Hd. reflexivity.
  - cbn [run] in Hrun. cbn [app visited].
    destruct (decode m st a) as [[st1 d1]|]; [|discriminate].
    destruct (run m st1 pre) as [[f ds1]|] eqn:Hr; [|discriminate].
    injection Hrun as <- _.
    rewrite (IH st1 f ds1 s' d Hr Hd). reflexivity.
Qed.

Lemma visited_last (m : step_mode) (pre : list Z) :
  forall st s ds,
    run m st pre = Some (s, ds) ->
    exists tr, visited m st pre = tr ++ [row s].
Proof.
  induction pre as [|a pre IH]; intros st s ds Hrun.
  - cbn in Hrun. injection Hrun as <- _. exists []. reflexivity.
  - cbn [run] in Hrun. cbn [visited].
    destruct (decode m st a) as [[st1 d1]|]; [|discriminate].
    destruct (run m st1 pre) as [[f ds1]|] eqn:Hr; [|discriminate].
    injection Hrun as <- _.
    destruct (IH st1 f ds1 Hr) as [tr Htr].
    exists (row st :: tr). rewrite Htr. reflexivity.
Qed.

(** While the decoder is in an intermediate row, the rows visited since
    it left the detent all belong to that row's movement and include,
    in order, every row of the movement up to the current one. *)
Lemma progress_invariant (m : step_mode) (pre : list Z) :
  forall s ds o c,
    run m R_START pre = Some (s, ds) ->
    chain_of m (row s) = Some (o, c) ->
    exists before seg,
      visited m R_START pre = before ++ o :: seg /\
      Forall (fun x => In x c) seg /\
      subseq (upto (row s) c) seg.
Proof.
  induction pre as [|p pre IH] using rev_ind; intros s ds o c Hrun Hc.
  - cbn in Hrun. injection Hrun as <- _. destruct m; discriminate.
  - rewrite run_app in Hrun.
    destruct (run m R_START pre) as [[s0 ds0]|] eqn:Hpre; [|discriminate].
    cbn [run] in Hrun.
    destruct (decode m s0 p) as [[s1 d1]|] eqn:Hd; [|discriminate].
    injection Hrun as <- _.
    rewrite (visited_snoc m pre p R_START s0 ds0 s1 d1 Hpre Hd).
    destruct (visited_last m pre R_START s0 ds0 Hpre) as [tr Htr].
    specialize (IH s0 ds0).
    by_table Hd; rewrite <- Erow in *;
      vm_compute in Hc; try discriminate; injection Hc as <- <-;
      first
        [ (* the movement starts: the row before is its detent *)
          exists tr; eexists [_]; rewrite Htr, <- app_assoc;
          split; [reflexivity|];
          split; [repeat constructor; cbn; tauto | cbn; tauto]
        | (* the movement goes on from another of its rows *)
          destruct (IH _ _ eq_refl eq_refl)
            as (before & seg & Hv & Hall & Hsub);
          exists before; eexists (seg ++ [_]); rewrite Hv, <- app_assoc;
          split; [reflexivity|];
          split;
            [ apply Forall_app; split;
                [exact Hall | repeat constructor; cbn; tauto]
            | eapply subseq_step; [exact Hsub | reflexivity] ] ].
Qed.

End Traversal.

(** An intermediate row is entered only on its own pin code. *)
Lemma entered_on_code (m : step_mode) (st q st' d : Z) :
  decode m st q = Some (st', d) -> settled m st' = false -> q = code m st'.
Proof.
  intros Hd. by_table Hd; vm_compute; intros; congruence.
Qed.

(** C2, as stated, fails: after samples 00,10,01 the decoder is back in
    R_START; the next sample 10 differs from 01 in both bits, yet the
    state is not routed to the neutral state: it leaves R_START for
    R_CW_BEGIN (in both modes). *)
Lemma jump_can_start_a_movement :
  (run HalfStep R_START [0; 2; 1]
     = Some (R_START, [DIR_NONE; DIR_NONE; DIR_NONE]) /\
   jump 1 2 = true /\
   decode HalfStep R_START 2 = Some (Half.R_CW_BEGIN, DIR_NONE) /\
   settled HalfStep Half.R_CW_BEGIN = false) /\
  (run FullStep R_START [0; 2; 1]
     = Some (R_START, [DIR_NONE; DIR_NONE; DIR_NONE]) /\
   decode FullStep R_START 2 = Some (Full.R_CW_BEGIN, DIR_NONE) /\
   settled FullStep Full.R_CW_BEGIN = false) /\
  ~ (forall pre q p st ds st' d,
       Forall sample (pre ++ [q; p]) ->
       run HalfStep R_START (pre ++ [q]) = Some (st, ds) ->
       decode HalfStep st p = Some (st', d) ->
       jump q p = true ->
       d = DIR_NONE /\ settled HalfStep st' = true) /\
  ~ (forall pre q p st ds st' d,
       Forall sample (pre ++ [q; p]) ->
       run FullStep R_START (pre ++ [q]) = Some (st, ds) ->
       decode FullStep st p = Some (st', d) ->
       jump q p = true ->
       d = DIR_NONE /\ settled FullStep st' = true).
Proof.
  assert (Hs : Forall sample ([0; 2] ++ [1; 2])).
  { repeat constructor; discriminate. }
  repeat split; try reflexivity.
  - intros H.
    destruct (H [0; 2] 1 2 R_START [DIR_NONE; DIR_NONE; DIR_NONE]
                Half.R_CW_BEGIN DIR_NONE Hs eq_refl eq_refl eq_refl)
      as [_ Hset].
    discriminate Hset.
  - intros H.
    destruct (H [0; 2] 1 2 R_START [DIR_NONE; DIR_NONE; DIR_NONE]
                Full.R_CW_BEGIN DIR_NONE Hs eq_refl eq_refl eq_refl)
      as [_ Hset].
    discriminate Hset.
Qed.

(** C2, amended. For every finite sequence of 2-bit samples fed to
    [process] from R_START (the run is defined):
    - an intermediate row is entered only on its own pin code;
    - a direction is returned only from the last intermediate row of its
      movement, on a sample one gray-code step away from that row's code,
      and only when, since the decoder left the detent, it visited rows of
      that movement only and each of them in the canonical order;
    - a sample that differs from the previous one in both bits returns
      DIR_NONE, and sends the decoder to a detent row whenever it was in
      an intermediate row, or in a detent row whose pin code was the
      previous sample. *)
Theorem events_need_traversal (m : step_mode) (pre : list Z) (p : Z) :
  Forall sample pre -> sample p ->
  exists st ds st' d,
    run m R_START pre = Some (st, ds) /\
    decode m st p = Some (st', d) /\
    (settled m st' = false -> p = code m st') /\
    (d <> DIR_NONE ->
       settled m st = false /\ jump (code m st) p = false /\
       exists o c,
         canonical m d p = Some (o, c) /\
         exists before seg,
           visited m R_START pre = before ++ o :: seg /\
           Forall (fun x => In x c) seg /\
           subseq c seg) /\
    (forall pre0 q,
       pre = pre0 ++ [q] -> jump q p = true ->
       d = DIR_NONE /\
       (settled m st = false \/ code m st = q -> settled m st' = true)).
Proof.
  intros Hpre Hp.
  destruct (run_total m pre R_START (reach_init m) Hpre) as (st & ds & Hrun).
  pose proof (reachable_run m pre R_START st ds (reach_init m) Hpre Hrun)
    as Hreach.
  destruct (decode_total m st p (reachable_row m st Hreach) Hp)
    as (st' & d & Hd).
  exists st, ds, st', d.
  split; [exact Hrun|]. split; [exact Hd|].
  split; [apply (entered_on_code m st p st' d Hd)|].
  split.
  - intros Hne.
    pose proof (progress_invariant m pre st ds) as Hinv.
    specialize (fun o c => Hinv o c Hrun).
    by_table Hd; try (exfalso; apply Hne; reflexivity);
      unfold settled, code; rewrite <- Erow in *;
      (split; [reflexivity|]); (split; [reflexivity|]);
      eexists; eexists; (split; [reflexivity|]);
      apply (Hinv _ _ eq_refl).
  - intros pre0 q -> Hjump.
    rewrite run_app in Hrun.
    destruct (run m R_START pre0) as [[s0 ds0]|]; [|discriminate].
    cbn [run] in Hrun.
    destruct (decode m s0 q) as [[s1 dq]|] eqn:Hq; [|discriminate].
    injection Hrun as -> _.
    pose proof (entered_on_code m s0 q st dq Hq) as Hcode.
    clear Hq Hreach.
    by_table Hd; unfold settled, code in *; rewrite <- Erow in *;
      first
        [ (* no event, and the new row is a detent row *)
          solve [ split; [reflexivity | intros _; vm_compute; reflexivity] ]
        | (* no event, and the sample was no jump after all *)
          solve [ split;
                  [ reflexivity
                  | let Hs := fresh in
                    intros [Hs | Hs];
                    first
                      [ vm_compute in Hs; discriminate Hs
                      | rewrite (Hcode eq_refl) in Hjump;
                        vm_compute in Hjump; discriminate Hjump
                      | rewrite <- Hs in Hjump;
                        vm_compute in Hjump; discriminate Hjump ] ] ]
        | (* an event: the row was entered on its code, one step away *)
          rewrite (Hcode eq_refl) in Hjump; vm_compute in Hjump;
          discriminate Hjump ].
Qed.

Lemma events_need_traversal_witness :
  Forall sample [0; 2] /\ sample 3 /\
  exists st ds st' d,
    run HalfStep R_START [0; 2] = Some (st, ds) /\
    decode HalfStep st 3 = Some (st', d) /\
    (settled HalfStep st' = false -> 3 = code HalfStep st') /\
    (d <> DIR_NONE ->
       settled HalfStep st = false /\ jump (code HalfStep st) 3 = false /\
       exists o c,
         canonical HalfStep d 3 = Some (o, c) /\
         exists before seg,
           visited HalfStep R_START [0; 2] = before ++ o :: seg /\
           Forall (fun x => In x c) seg /\
           subseq c seg) /\
    (forall pre0 q,
       [0; 2] = pre0 ++ [q] -> jump q 3 = true ->
       d = DIR_NONE /\
       (settled HalfStep st = false \/ code HalfStep st = q ->
        settled HalfStep st' = true)).
Proof.
  assert (Hs : Forall sample [0; 2]) by (repeat constructor; discriminate).
  assert (Hp : sample 3) by (split; [discriminate | reflexivity]).
  split; [exact Hs|]. split; [exact Hp|].
  exact (events_need_traversal HalfStep [0; 2] 3 Hs Hp).
Defined.

(** * Properties of the push button *)

(** C9. [readButton] returns BUTTON_PRESSED when the button line reads
    low and BUTTON_RELEASED when it reads high (two different values), and
    it leaves the object as it was: decoder state, buttonState and
    buttonTimer are the same after the call. *)
Theorem readButton_reads_only (hw : Board) (r : Rotary) :
  snd (readButton hw r) =
    match digitalRead hw (buttonPin r) with
    | LOW => BUTTON_PRESSED
    | HIGH => BUTTON_RELEASED
    end /\
  (BUTTON_PRESSED =? BUTTON_RELEASED) = false /\
  fst (readButton hw r) = r /\
  state (fst (readButton hw r)) = state r /\
  buttonState (fst (readButton hw r)) = buttonState r /\
  buttonTimer (fst (readButton hw r)) = buttonTimer r.
Proof.
  unfold readButton, reads_high.
  destruct (digitalRead hw (buttonPin r)); cbn; repeat split; reflexivity.
Qed.

Section Clock.

Lemma to_ulong_range (x : Z) : 0 <= to_ulong x < 2 ^ 32.
Proof. unfold to_ulong. apply Z.mod_pos_bound. lia. Qed.

Lemma to_ulong_small (x : Z) : 0 <= x < 2 ^ 32 -> to_ulong x = x.
Proof. unfold to_ulong. intros H. apply Z.mod_small. exact H. Qed.

(** The unsigned difference of two counter readings is the time between
    them, whatever the counter did in between. *)
Lemma to_ulong_elapsed (t0 e : Z) :
  to_ulong (to_ulong (t0 + e) - to_ulong t0) = to_ulong e.
Proof.
  unfold to_ulong. rewrite <- Zminus_mod. f_equal. lia.
Qed.

Lemma expired_after (delay t0 e : Z) (hw : Board) (r : Rotary) :
  0 <= delay -> short delay -> 0 <= e < 2 ^ 32 ->
  buttonTimer r = to_ulong t0 -> millis hw = to_ulong (t0 + e) ->
  timer_expired hw r delay = (delay <? e).
Proof.
  unfold short, timer_expired. intros H0 Hs He -> ->.
  rewrite to_ulong_elapsed.
  rewrite (to_ulong_small e He).
  rewrite (to_ulong_small delay) by lia.
  reflexivity.
Qed.

End Clock.

(** C10. The elapsed-time test of both button queries subtracts in 32-bit
    unsigned arithmetic: for a non-negative delay and a press that really
    happened [e] < 2^32 milliseconds before the check, the test
    [millis() - buttonTimer > delay] is [e > delay], wherever the counter
    stood at the press and whether or not it wrapped since; and this is
    what [buttonPressedHeld] (line still closed) and
    [buttonPressedReleased] (line open again) then return. *)
Theorem elapsed_test_survives_wrap
  (delay t0 e : Z) (hw : Board) (r : Rotary) :
  0 <= delay -> short delay -> 0 <= e < 2 ^ 32 ->
  buttonTimer r = to_ulong t0 -> millis hw = to_ulong (t0 + e) ->
  buttonState r = BUTTON_PRESSED ->
  timer_expired hw r delay = (delay <? e) /\
  (reads_high hw (buttonPin r) = false ->
     snd (buttonPressedHeld delay hw r) = (delay <? e)) /\
  (reads_high hw (buttonPin r) = true ->
     snd (buttonPressedReleased delay hw r) = (delay <? e)).
Proof.
  intros H0 Hs He Ht Hm Hb.
  pose proof (expired_after delay t0 e hw r H0 Hs He Ht Hm) as Hx.
  split; [exact Hx|]. split; intros Hl.
  - unfold buttonPressedHeld. rewrite Hl, Hb, Hx. cbn.
    destruct (delay <? e); reflexivity.
  - unfold buttonPressedReleased. rewrite Hl, Hb, Hx. cbn.
    destruct (delay <? e); cbn; rewrite ?Hb; reflexivity.
Qed.

Lemma elapsed_test_survives_wrap_witness :
  let r := mkRotary 0 2 3 4 BUTTON_PRESSED (2 ^ 32 - 5) in
  let hw := mkBoard (fun _ => LOW) 5 in
  timer_expired hw r 7 = true /\ snd (buttonPressedHeld 7 hw r) = true.
Proof.
  intros r hw.
  assert (H0 : 0 <= 7) by discriminate.
  assert (Hs : short 7) by (split; discriminate).
  assert (He : 0 <= 10 < 2 ^ 32) by (split; [discriminate | reflexivity]).
  destruct (elapsed_test_survives_wrap 7 (2 ^ 32 - 5) 10 hw r
              H0 Hs He eq_refl eq_refl eq_refl) as (Hx & Hh & _).
  split; [exact Hx | exact (Hh eq_refl)].
Defined.

Section Polling.

Variable epoch : Z.

Lemma poll_app (query : Board -> Rotary -> Rotary * bool)
  (l1 l2 : list Board) (r : Rotary) :
  poll query (l1 ++ l2) r =
  let (r1, bs1) := poll query l1 r in
  let (r2, bs2) := poll query l2 r1 in
  (r2, bs1 ++ bs2).
Proof.
  revert r. induction l1 as [|hw l1 IH]; intros r; cbn [poll app].
  - destruct (poll query l2 r). reflexivity.
  - destruct (query hw r) as [r1 b]. rewrite IH.
    destruct (poll query l1 r1) as [r2 bs].
    destruct (poll query l2 r2). reflexivity.
Qed.

Lemma ticks_cons (line : nat -> level) (a n : nat) :
  ticks epoch line a (S n) =
  tick_board epoch line a :: ticks epoch line (S a) n.
Proof. reflexivity. Qed.

Lemma ticks_app (line : nat -> level) (a n k : nat) :
  ticks epoch line a (n + k) =
  ticks epoch line a n ++ ticks epoch line (a + n) k.
Proof. unfold ticks. rewrite seq_app, map_app. reflexivity. Qed.

(** The press was seen at tick [t0]; at tick [t0 + e] the test of the
    timer is [delay < e]. *)
Lemma expired_at_tick (delay : Z) (line : nat -> level) (t0 e : nat)
  (r : Rotary) :
  0 <= delay -> short delay -> Z.of_nat e < 2 ^ 32 ->
  buttonTimer r = to_ulong (epoch + Z.of_nat t0) ->
  timer_expired (tick_board epoch line (t0 + e)) r delay
  = (delay <? Z.of_nat e).
Proof.
  intros H0 Hs He Ht.
  apply (expired_after delay (epoch + Z.of_nat t0) (Z.of_nat e));
    try assumption; try lia.
  cbn [millis tick_board]. f_equal. lia.
Qed.

(** *** buttonPressedReleased *)

(** While the press is younger than the delay, or the line is still
    closed, a pressed button stays pressed and nothing is reported. *)
Lemma released_waits (delay : Z) (line : nat -> level) (t0 : nat)
  (r : Rotary) (n : nat) :
  0 <= delay -> short delay ->
  buttonState r = BUTTON_PRESSED ->
  buttonTimer r = to_ulong (epoch + Z.of_nat t0) ->
  forall e,
    Z.of_nat (e + n) <= delay + 1 ->
    poll (buttonPressedReleased delay) (ticks epoch line (t0 + e) n) r
    = (r, repeat false n).
Proof.
  intros H0 Hs Hb Ht. induction n as [|n IH]; intros e He.
  - reflexivity.
  - rewrite ticks_cons. cbn [poll repeat].
    assert (Hq : buttonPressedReleased delay
                   (tick_board epoch line (t0 + e)) r = (r, false)).
    { unfold buttonPressedReleased. rewrite Hb. cbn [Z.eqb Pos.eqb BUTTON_PRESSED].
      rewrite (expired_at_tick delay line t0 e r H0 Hs) by
        (first [assumption | unfold short in Hs; lia]).
      replace (delay <? Z.of_nat e) with false
        by (symmetry; apply Z.ltb_ge; lia).
      rewrite Hb. reflexivity. }
    rewrite Hq.
    replace (S (t0 + e)) with (t0 + S e)%nat by lia.
    rewrite (IH (S e)) by lia. reflexivity.
Qed.

(** With the button idle and the line open, nothing happens. *)
Lemma released_idle (delay : Z) (line : nat -> level) (r : Rotary)
  (n : nat) :
  buttonState r = BUTTON_RESET ->
  forall a,
    (forall t, (a <= t)%nat -> line t = HIGH) ->
    poll (buttonPressedReleased delay) (ticks epoch line a n) r
    = (r, repeat false n).
Proof.
  intros Hb. induction n as [|n IH]; intros a Hline.
  - reflexivity.
  - rewrite ticks_cons. cbn [poll repeat].
    assert (Hq : buttonPressedReleased delay
                   (tick_board epoch line a) r = (r, false)).
    { unfold buttonPressedReleased, reads_high. rewrite Hb.
      cbn [digitalRead tick_board]. rewrite (Hline a) by lia.
      cbn. rewrite Hb. reflexivity. }
    rewrite Hq. rewrite (IH (S a)) by (intros; apply Hline; lia).
    reflexivity.
Qed.

End Polling.

(** C4. With buttonState at Reset, the line closed from tick 0 through
    tick [debounce_delay] and open from tick [debounce_delay + 1] on, and
    [buttonPressedReleased debounce_delay] called once per millisecond:
    the calls at ticks 0 .. [debounce_delay] return false, the call at
    tick [debounce_delay + 1] returns true and leaves buttonState at Reset
    (0), and all later calls return false while the line stays open. *)
Theorem press_release_reported_once
  (epoch debounce_delay : Z) (k : nat) (r : Rotary) :
  0 <= debounce_delay -> short debounce_delay ->
  buttonState r = BUTTON_RESET ->
  let n := Z.to_nat debounce_delay in
  let line := released_after n in
  exists r1,
    poll (buttonPressedReleased debounce_delay)
         (ticks epoch line 0 (n + 2)) r
    = (r1, repeat false (n + 1) ++ [true]) /\
    buttonState r1 = BUTTON_RESET /\
    poll (buttonPressedReleased debounce_delay)
         (ticks epoch line 0 (n + 2 + k)) r
    = (r1, repeat false (n + 1) ++ [true] ++ repeat false k).
Proof.
  intros H0 Hs Hb n line.
  set (rp := set_buttonTimer (set_buttonState r BUTTON_PRESSED)
                              (to_ulong (epoch + Z.of_nat 0))).
  set (r1 := set_buttonState rp 0x00).
  assert (Hbp : buttonState rp = BUTTON_PRESSED) by reflexivity.
  assert (Htp : buttonTimer rp = to_ulong (epoch + Z.of_nat 0))
    by reflexivity.
  (* tick 0: the press is seen *)
  assert (Hfirst : buttonPressedReleased debounce_delay
                     (tick_board epoch line 0) r = (rp, false)).
  { unfold buttonPressedReleased, reads_high. rewrite Hb.
    cbn [digitalRead tick_board millis]. unfold line, released_after.
    cbn [Nat.leb]. cbn. reflexivity. }
  (* ticks 1 .. n: the delay has not expired *)
  pose proof (released_waits epoch debounce_delay line 0 rp n H0 Hs Hbp Htp 1%nat)
    as Hwait.
  cbn [Nat.add] in Hwait. specialize (Hwait ltac:(lia)).
  (* tick n + 1: expired and open *)
  assert (Hfire : buttonPressedReleased debounce_delay
                    (tick_board epoch line (S n)) rp = (r1, true)).
  { unfold buttonPressedReleased. rewrite Hbp.
    cbn [Z.eqb Pos.eqb BUTTON_PRESSED].
    change (S n) with (0 + S n)%nat.
    rewrite (expired_at_tick epoch debounce_delay line 0 (S n) rp H0 Hs)
      by (first [assumption | unfold short in Hs; lia]).
    replace (debounce_delay <? Z.of_nat (S n)) with true
      by (symmetry; apply Z.ltb_lt; lia).
    unfold reads_high. cbn [digitalRead tick_board].
    unfold line, released_after.
    replace (0 + S n <=? n)%nat with false
      by (symmetry; apply Nat.leb_gt; lia).
    cbn [level_val Z.eqb negb].
    cbn [buttonState set_buttonState]. rewrite ?Hbp. reflexivity. }
  assert (Hb1 : buttonState r1 = BUTTON_RESET) by reflexivity.
  (* later ticks: idle, line open *)
  pose proof (released_idle epoch debounce_delay line r1 k Hb1 (S (S n)))
    as Hidle.
  assert (Hopen : forall t, (S (S n) <= t)%nat -> line t = HIGH).
  { intros t Ht. unfold line, released_after.
    replace (t <=? n)%nat with false by (symmetry; apply Nat.leb_gt; lia).
    reflexivity. }
  specialize (Hidle Hopen).
  assert (Hcycle : poll (buttonPressedReleased debounce_delay)
                        (ticks epoch line 0 (n + 2)) r
                   = (r1, repeat false (n + 1) ++ [true])).
  { replace (n + 2)%nat with (S (n + 1)) by lia.
    rewrite ticks_cons. cbn [poll]. rewrite Hfirst.
    rewrite ticks_app, poll_app, Hwait.
    replace (1 + n)%nat with (S n) by lia.
    cbn [ticks seq map poll]. rewrite Hfire.
    replace (n + 1)%nat with (S n) by lia. reflexivity. }
  exists r1. split; [exact Hcycle|]. split; [exact Hb1|].
  rewrite ticks_app, poll_app, Hcycle.
  replace (0 + (n + 2))%nat with (S (S n)) by lia.
  rewrite Hidle, <- app_assoc. reflexivity.
Qed.

Lemma press_release_reported_once_witness :
  let r := mkRotary 0 2 3 4 BUTTON_RESET 0 in
  exists r1,
    poll (buttonPressedReleased 2) (ticks 0 (released_after 2) 0 4) r
    = (r1, [false; false; false; true]) /\
    buttonState r1 = BUTTON_RESET /\
    poll (buttonPressedReleased 2) (ticks 0 (released_after 2) 0 7) r
    = (r1, [false; false; false; true; false; false; false]).
Proof.
  intros r.
  assert (H0 : 0 <= 2) by discriminate.
  assert (Hs : short 2) by (split; discriminate).
  exact (press_release_reported_once 0 2 3 r H0 Hs eq_refl).
Defined.

Section Held.

(** *** buttonPressedHeld *)

(** While the line stays closed and the timer has not expired, a pressed
    button stays pressed and nothing is reported. *)
Lemma held_waits (delay : Z) (r : Rotary) (boards : list Board) :
  buttonState r = BUTTON_PRESSED ->
  Forall (fun hw => reads_high hw (buttonPin r) = false /\
                    timer_expired hw r delay = false) boards ->
  poll (buttonPressedHeld delay) boards r
  = (r, repeat false (length boards)).
Proof.
  intros Hb. induction boards as [|hw rest IH]; intros Hall.
  - reflexivity.
  - inversion Hall as [|? ? [Hl Hx] Hrest]; subst.
    cbn [poll length repeat]. unfold buttonPressedHeld at 1.
    rewrite Hl, Hb, Hx. cbn [negb Z.eqb Pos.eqb BUTTON_PRESSED].
    rewrite (IH Hrest). reflexivity.
Qed.

(** The first tick with the line closed starts the timer. *)
Lemma held_press_seen (delay : Z) (hw : Board) (r : Rotary) :
  buttonState r <> BUTTON_PRESSED ->
  reads_high hw (buttonPin r) = false ->
  buttonPressedHeld delay hw r
  = (set_buttonTimer (set_buttonState r BUTTON_PRESSED) (millis hw), false).
Proof.
  intros Hb Hl. unfold buttonPressedHeld. rewrite Hl.
  apply Z.eqb_neq in Hb. rewrite Hb. reflexivity.
Qed.

(** One full cycle of a closed line, from a tick [a] at which the
    button is not marked pressed: [n + 1] calls return false (the press
    is seen, then the elapsed time is 1 .. [delay]) and the next one,
    [delay + 1] ms after the press was seen, returns true and resets. *)
Lemma held_cycle (epoch delay : Z) (a : nat) (r : Rotary) :
  0 <= delay -> short delay ->
  buttonState r <> BUTTON_PRESSED ->
  let n := Z.to_nat delay in
  let rp := set_buttonTimer (set_buttonState r BUTTON_PRESSED)
                            (to_ulong (epoch + Z.of_nat a)) in
  poll (buttonPressedHeld delay) (ticks epoch held_line a (n + 1)) r
  = (rp, repeat false (n + 1)) /\
  buttonPressedHeld delay (tick_board epoch held_line (a + (n + 1))) rp
  = (set_buttonState rp BUTTON_RESET, true).
Proof.
  intros H0 Hs Hb n rp.
  assert (Hbp : buttonState rp = BUTTON_PRESSED) by reflexivity.
  assert (Htp : buttonTimer rp = to_ulong (epoch + Z.of_nat a))
    by reflexivity.
  split.
  - replace (n + 1)%nat with (S n) by lia.
    rewrite ticks_cons. cbn [poll repeat].
    rewrite (held_press_seen delay _ r Hb) by reflexivity.
    cbn [millis tick_board]. fold rp.
    rewrite (held_waits delay rp (ticks epoch held_line (S a) n) Hbp).
    + unfold ticks. rewrite length_map, length_seq. reflexivity.
    + unfold ticks. apply Forall_map. apply Forall_forall.
      intros t Ht. apply in_seq in Ht.
      split; [reflexivity|].
      replace t with (a + (t - a))%nat by lia.
      rewrite (expired_at_tick epoch delay held_line a (t - a) rp H0 Hs)
        by (first [assumption | unfold short in Hs; lia]).
      apply Z.ltb_ge. lia.
  - unfold buttonPressedHeld.
    rewrite (expired_at_tick epoch delay held_line a (n + 1) rp H0 Hs)
      by (first [assumption | unfold short in Hs; lia]).
    replace (delay <? Z.of_nat (n + 1)) with true
      by (symmetry; apply Z.ltb_lt; lia).
    reflexivity.
Qed.

End Held.

(** C3, as stated, fails: with a hold threshold of 3 ms the call at tick
    3, where the time since the press was seen is 3 (so elapsed >=
    threshold), still returns false; true is returned one tick later. *)
Lemma held_fires_after_threshold :
  let r := mkRotary 0 2 3 4 BUTTON_RESET 0 in
  snd (poll (buttonPressedHeld 3) (ticks 0 held_line 0 5) r)
  = [false; false; false; false; true] /\
  ~ (forall (threshold : Z) (r0 : Rotary),
       0 <= threshold -> short threshold ->
       buttonState r0 = BUTTON_RESET ->
       snd (poll (buttonPressedHeld threshold)
                 (ticks 0 held_line 0 (Z.to_nat threshold + 2)) r0)
       = repeat false (Z.to_nat threshold) ++ [true; false]).
Proof.
  intros r. split; [reflexivity|].
  intros H.
  assert (H0 : 0 <= 3) by discriminate.
  assert (Hs : short 3) by (split; discriminate).
  specialize (H 3 r H0 Hs eq_refl).
  vm_compute in H. discriminate H.
Qed.

(** C3, amended. With buttonState at Reset and the line closed from tick
    0 on, [buttonPressedHeld threshold] called once per millisecond
    returns false at ticks 0 .. [threshold] (elapsed time <= threshold),
    returns true exactly once, at tick [threshold + 1] where the elapsed
    time first exceeds the threshold, leaving buttonState at Reset; if the
    line stays closed, the following [threshold + 1] calls return false
    again. *)
Theorem held_reported_after_threshold
  (epoch threshold : Z) (r : Rotary) :
  0 <= threshold -> short threshold ->
  buttonState r = BUTTON_RESET ->
  let n := Z.to_nat threshold in
  exists r1 r2,
    poll (buttonPressedHeld threshold) (ticks epoch held_line 0 (n + 2)) r
    = (r1, repeat false (n + 1) ++ [true]) /\
    buttonState r1 = BUTTON_RESET /\
    poll (buttonPressedHeld threshold)
         (ticks epoch held_line (n + 2) (n + 1)) r1
    = (r2, repeat false (n + 1)).
Proof.
  intros H0 Hs Hb n.
  assert (Hne : buttonState r <> BUTTON_PRESSED).
  { rewrite Hb. discriminate. }
  destruct (held_cycle epoch threshold 0 r H0 Hs Hne) as [Hw Hf].
  fold n in Hw, Hf. cbn zeta in Hw, Hf.
  set (rp := set_buttonTimer (set_buttonState r BUTTON_PRESSED)
               (to_ulong (epoch + Z.of_nat 0))) in *.
  set (r1 := set_buttonState rp BUTTON_RESET) in *.
  assert (Hne1 : buttonState r1 <> BUTTON_PRESSED) by discriminate.
  destruct (held_cycle epoch threshold (n + 2) r1 H0 Hs Hne1) as [Hw1 _].
  fold n in Hw1. cbn zeta in Hw1.
  exists r1. eexists. split; [|split; [reflexivity | exact Hw1]].
  replace (n + 2)%nat with ((n + 1) + 1)%nat by lia.
  rewrite ticks_app, poll_app, Hw.
  cbn [ticks seq map poll]. rewrite Hf. reflexivity.
Qed.

Lemma held_reported_after_threshold_witness :
  let r := mkRotary 0 2 3 4 BUTTON_RESET 0 in
  exists r1 r2,
    poll (buttonPressedHeld 3) (ticks 0 held_line 0 5) r
    = (r1, [false; false; false; false; true]) /\
    buttonState r1 = BUTTON_RESET /\
    poll (buttonPressedHeld 3) (ticks 0 held_line 5 4) r1
    = (r2, [false; false; false; false]).
Proof.
  intros r.
  assert (H0 : 0 <= 3) by discriminate.
  assert (Hs : short 3) by (split; discriminate).
  exact (held_reported_after_threshold 0 3 r H0 Hs eq_refl).
Defined.

(** C7. If, after [buttonPressedHeld] first sees the line closed, the
    line reads open before the hold threshold was exceeded, every call of
    that press cycle returns false, and the call that sees the open line
    resets buttonState to Reset. *)
Theorem short_press_reports_nothing
  (threshold : Z) (r : Rotary) (first : Board) (closed : list Board)
  (opened : Board) :
  0 <= threshold -> short threshold ->
  buttonState r <> BUTTON_PRESSED ->
  reads_high first (buttonPin r) = false ->
  Forall (fun hw => reads_high hw (buttonPin r) = false /\
                    to_ulong (millis hw - millis first) <= threshold)
         closed ->
  reads_high opened (buttonPin r) = true ->
  exists rp r',
    poll (buttonPressedHeld threshold) (first :: closed) r
    = (rp, repeat false (length closed + 1)) /\
    buttonState rp = BUTTON_PRESSED /\
    poll (buttonPressedHeld threshold) (first :: closed ++ [opened]) r
    = (r', repeat false (length closed + 2)) /\
    buttonState r' = BUTTON_RESET.
Proof.
  intros H0 Hs Hb Hfirst Hclosed Hopen.
  set (rp := set_buttonTimer (set_buttonState r BUTTON_PRESSED)
                             (millis first)).
  assert (Hbp : buttonState rp = BUTTON_PRESSED) by reflexivity.
  assert (Hwait : poll (buttonPressedHeld threshold) closed rp
                  = (rp, repeat false (length closed))).
  { apply held_waits; [exact Hbp|].
    eapply Forall_impl; [|exact Hclosed].
    intros hw [Hl He]. split; [exact Hl|].
    unfold timer_expired. cbn [buttonTimer rp set_buttonTimer].
    apply Z.ltb_ge. rewrite (to_ulong_small threshold); [exact He|].
    unfold short in Hs. lia. }
  assert (Hlast : buttonPressedHeld threshold opened rp
                  = (set_buttonState rp BUTTON_RESET, false)).
  { unfold buttonPressedHeld.
    change (buttonPin rp) with (buttonPin r). rewrite Hopen, Hbp.
    reflexivity. }
  exists rp, (set_buttonState rp BUTTON_RESET).
  split; [|split; [exact Hbp | split; [|reflexivity]]].
  - cbn [poll]. rewrite (held_press_seen threshold first r Hb Hfirst).
    fold rp. rewrite Hwait.
    replace (length closed + 1)%nat with (S (length closed)) by lia.
    reflexivity.
  - cbn [poll]. rewrite (held_press_seen threshold first r Hb Hfirst).
    fold rp. rewrite poll_app, Hwait. cbn [poll]. rewrite Hlast.
    replace (length closed + 2)%nat with (S (length closed + 1)) by lia.
    cbn [repeat]. rewrite repeat_app. reflexivity.
Qed.

Lemma short_press_reports_nothing_witness :
  let r := mkRotary 0 2 3 4 BUTTON_RESET 0 in
  let first := mkBoard (fun _ => LOW) 100 in
  let closed := [mkBoard (fun _ => LOW) 101; mkBoard (fun _ => LOW) 103] in
  let opened := mkBoard (fun _ => HIGH) 104 in
  exists rp r',
    poll (buttonPressedHeld 5) (first :: closed) r
    = (rp, [false; false; false]) /\
    buttonState rp = BUTTON_PRESSED /\
    poll (buttonPressedHeld 5) (first :: closed ++ [opened]) r
    = (r', [false; false; false; false]) /\
    buttonState r' = BUTTON_RESET.
Proof.
  intros r first closed opened.
  assert (H0 : 0 <= 5) by discriminate.
  assert (Hs : short 5) by (split; discriminate).
  assert (Hb : buttonState r <> BUTTON_PRESSED) by discriminate.
  assert (Hc : Forall (fun hw => reads_high hw (buttonPin r) = false /\
                                 to_ulong (millis hw - millis first) <= 5)
                      closed).
  { repeat constructor; discriminate. }
  exact (short_press_reports_nothing 5 r first closed opened
           H0 Hs Hb eq_refl Hc eq_refl).
Defined.

(** * Further properties of the decoder *)

Section Movement.

(** Any transition leads to a row of the table. *)
Lemma decode_row_range (m : step_mode) (st p st' d : Z) :
  decode m st p = Some (st', d) -> 0 <= row st' < rows m.
Proof.
  intros Hd. by_table Hd; vm_compute; intuition discriminate.
Qed.

(** On a sample that is no two-bit jump from the code of the current row,
    the new row rests at the sample, the books of quarter steps balance,
    and an event has the sign of the step. *)
Lemma step_tracks (m : step_mode) (st p st' d : Z) :
  decode m st p = Some (st', d) ->
  jump (code m st) p = false ->
  code m st' = p /\
  offset m st + quarter (code m st) p = per m * turn d + offset m st' /\
  (0 <= offset m st -> 0 <= quarter (code m st) p ->
   d <> DIR_CCW /\ 0 <= offset m st').
Proof.
  intros Hd Hj.
  by_table Hd; unfold code, offset in *; rewrite <- Erow in *;
    vm_compute in Hj; try discriminate Hj;
    vm_compute; intuition discriminate.
Qed.

(** One call brings the decoder at most one quarter step further from a
    detent, and an event starts again from zero. *)
Lemma step_rate (m : step_mode) (st p st' d : Z) :
  decode m st p = Some (st', d) ->
  per m * Z.abs (turn d) + Z.abs (offset m st') <= Z.abs (offset m st) + 1.
Proof.
  intros Hd.
  by_table Hd; unfold offset; rewrite <- Erow;
    vm_compute; discriminate.
Qed.

Lemma offset_range (m : step_mode) (st : Z) :
  - per m < offset m st < per m.
Proof.
  unfold offset, per.
  destruct m;
    repeat match goal with
           | |- context [if ?b then _ else _] => destruct b
           end; lia.
Qed.

(** The general form of the position invariant, from any row. *)
Lemma position_tracked (m : step_mode) (samples : list Z) :
  forall st,
    0 <= row st < rows m -> Forall sample samples ->
    legal (code m st) samples = true ->
    exists st' ds,
      run m st samples = Some (st', ds) /\
      offset m st + position (code m st) samples
      = per m * net ds + offset m st'.
Proof.
  induction samples as [|p rest IH]; intros st Hrow Hs Hl.
  - exists st, []. cbn. split; [reflexivity | lia].
  - inversion Hs as [|? ? Hp Hrest]; subst.
    cbn [legal] in Hl. apply andb_true_iff in Hl as [Hj Hl].
    apply negb_true_iff in Hj.
    destruct (decode_total m st p Hrow Hp) as (st1 & d & Hd).
    destruct (step_tracks m st p st1 d Hd Hj) as (Hc & Hbal & _).
    rewrite <- Hc in Hl.
    destruct (IH st1 (decode_row_range m st p st1 d Hd) Hrest Hl)
      as (st' & ds & Hrun & Hpos).
    exists st', (d :: ds). cbn [run]. rewrite Hd, Hrun.
    split; [reflexivity|].
    cbn [position net fold_right]. fold (net ds).
    rewrite Hc in Hpos. rewrite Z.mul_add_distr_l. lia.
Qed.

Lemma events_cons (d0 d : Z) (ds : list Z) :
  Z.of_nat (events d0 (d :: ds))
  = (if d0 =? d then 1 else 0) + Z.of_nat (events d0 ds).
Proof.
  unfold events. cbn [filter].
  destruct (d0 =? d); [cbn [length]; rewrite Nat2Z.inj_succ|]; lia.
Qed.

Lemma turn_abs (d : Z) :
  Z.abs (turn d)
  = (if DIR_CW =? d then 1 else 0) + (if DIR_CCW =? d then 1 else 0).
Proof.
  unfold turn. rewrite (Z.eqb_sym d DIR_CW), (Z.eqb_sym d DIR_CCW).
  destruct (Z.eqb_spec DIR_CW d) as [<-|_]; [reflexivity|].
  destruct (DIR_CCW =? d); reflexivity.
Qed.

End Movement.

(** X1. While no sample is a two-bit jump, the decoder keeps exact count
    of the encoder: from any reachable state, the quarter steps travelled
    (clockwise positive, counted from the detent the current row left)
    equal 4 (full-step) or 2 (half-step) times the signed sum of the
    events returned, plus the quarter steps the final row lies past its
    detent. *)
Theorem decoder_tracks_position (m : step_mode) (st : Z) (samples : list Z) :
  reachable m st -> Forall sample samples ->
  legal (code m st) samples = true ->
  exists st' ds,
    run m st samples = Some (st', ds) /\
    offset m st + position (code m st) samples
    = per m * net ds + offset m st' /\
    - per m < offset m st' < per m.
Proof.
  intros Hr Hs Hl.
  destruct (position_tracked m samples st (reachable_row m st Hr) Hs Hl)
    as (st' & ds & Hrun & Hpos).
  exists st', ds. split; [exact Hrun|]. split; [exact Hpos|].
  apply offset_range.
Qed.

Lemma decoder_tracks_position_witness :
  exists st' ds,
    run FullStep R_START [2; 3; 1; 0; 2; 0; 1; 3; 2; 0; 1]
    = Some (st', ds) /\
    offset FullStep R_START
    + position (code FullStep R_START) [2; 3; 1; 0; 2; 0; 1; 3; 2; 0; 1]
    = per FullStep * net ds + offset FullStep st' /\
    - per FullStep < offset FullStep st' < per FullStep.
Proof.
  assert (Hs : Forall sample [2; 3; 1; 0; 2; 0; 1; 3; 2; 0; 1]).
  { repeat constructor; discriminate. }
  exact (decoder_tracks_position FullStep R_START
           [2; 3; 1; 0; 2; 0; 1; 3; 2; 0; 1]
           (reach_init FullStep) Hs eq_refl).
Defined.

(** X2. When the encoder only moves clockwise (no jump, no step back),
    however long each code is sampled, no CounterClockwise event is
    returned and the number of Clockwise events is the number of whole
    detents (half detents in half-step mode) travelled: position = per *
    events + remainder with 0 <= remainder < per. *)
Theorem clockwise_turns_counted (m : step_mode) (samples : list Z) :
  Forall sample samples -> forward 0 samples = true ->
  exists st ds,
    run m R_START samples = Some (st, ds) /\
    events DIR_CCW ds = 0%nat /\
    position 0 samples
    = per m * Z.of_nat (events DIR_CW ds) + offset m st /\
    0 <= offset m st < per m.
Proof.
  intros Hs Hf.
  assert (Hgen : forall l st,
             0 <= row st < rows m -> 0 <= offset m st ->
             Forall sample l -> forward (code m st) l = true ->
             exists st' ds,
               run m st l = Some (st', ds) /\
               events DIR_CCW ds = 0%nat /\
               offset m st + position (code m st) l
               = per m * Z.of_nat (events DIR_CW ds) + offset m st' /\
               0 <= offset m st').
  { induction l as [|p rest IH]; intros st Hrow Hoff Hl Hfw.
    - exists st, []. cbn. repeat split; lia.
    - inversion Hl as [|? ? Hp Hrest]; subst.
      cbn [forward] in Hfw.
      apply andb_true_iff in Hfw as [Hfw Hfr].
      apply andb_true_iff in Hfw as [Hj Hq].
      apply negb_true_iff in Hj. apply Z.leb_le in Hq.
      destruct (decode_total m st p Hrow Hp) as (st1 & d & Hd).
      destruct (step_tracks m st p st1 d Hd Hj) as (Hc & Hbal & Hfwd).
      destruct (Hfwd Hoff Hq) as [Hnccw Hoff1].
      rewrite <- Hc in Hfr.
      destruct (IH st1 (decode_row_range m st p st1 d Hd) Hoff1 Hrest Hfr)
        as (st' & ds & Hrun & Hccw & Hpos & Hoff').
      exists st', (d :: ds). cbn [run]. rewrite Hd, Hrun.
      split; [reflexivity|].
      rewrite Hc in Hpos. cbn [position].
      unfold events in *. cbn [filter].
      unfold turn in Hbal.
      destruct (Z.eqb_spec DIR_CCW d) as [E|E];
        [exfalso; apply Hnccw; symmetry; exact E|].
      split; [exact Hccw|].
      split; [|exact Hoff'].
      destruct (Z.eqb_spec DIR_CW d) as [E1|E1].
      + subst d. cbn [length]. change (DIR_CW =? DIR_CW) with true in Hbal.
        cbn iota in Hbal. rewrite Nat2Z.inj_succ. lia.
      + destruct (Z.eqb_spec d DIR_CW) as [E2|_];
          [exfalso; apply E1; symmetry; exact E2|].
        destruct (Z.eqb_spec d DIR_CCW) as [E3|_];
          [exfalso; apply E; symmetry; exact E3|].
        lia. }
  assert (Hrow0 : 0 <= row R_START < rows m).
  { destruct m; vm_compute; intuition discriminate. }
  assert (Hc0 : code m R_START = 0) by (destruct m; reflexivity).
  assert (Ho0 : offset m R_START = 0) by (destruct m; reflexivity).
  rewrite <- Hc0 in Hf.
  destruct (Hgen samples R_START Hrow0 ltac:(lia) Hs Hf)
    as (st & ds & Hrun & Hccw & Hpos & Hoff).
  exists st, ds. rewrite Hc0, Ho0 in Hpos.
  repeat split; try assumption; try lia.
  apply offset_range.
Qed.

Lemma clockwise_turns_counted_witness :
  exists st ds,
    run HalfStep R_START [0; 0; 2; 2; 2; 3; 1; 1; 0; 0; 2] = Some (st, ds) /\
    events DIR_CCW ds = 0%nat /\
    position 0 [0; 0; 2; 2; 2; 3; 1; 1; 0; 0; 2]
    = per HalfStep * Z.of_nat (events DIR_CW ds) + offset HalfStep st /\
    0 <= offset HalfStep st < per HalfStep.
Proof.
  assert (Hs : Forall sample [0; 0; 2; 2; 2; 3; 1; 1; 0; 0; 2]).
  { repeat constructor; discriminate. }
  exact (clockwise_turns_counted HalfStep
           [0; 0; 2; 2; 2; 3; 1; 1; 0; 0; 2] Hs eq_refl).
Defined.

(** X3. Events cannot come faster than the encoder can move: whatever
    the samples (jumps included), a run of n calls from R_START returns
    at most n/4 events in full-step mode and n/2 in half-step mode; more
    precisely per * events + |offset of the final row| <= n. *)
Theorem event_rate_bounded (m : step_mode) (samples : list Z) :
  Forall sample samples ->
  exists st ds,
    run m R_START samples = Some (st, ds) /\
    per m * Z.of_nat (events DIR_CW ds + events DIR_CCW ds)
    + Z.abs (offset m st) <= Z.of_nat (length samples).
Proof.
  intros Hs.
  assert (Hgen : forall l st,
             0 <= row st < rows m -> Forall sample l ->
             exists st' ds,
               run m st l = Some (st', ds) /\
               per m * Z.of_nat (events DIR_CW ds + events DIR_CCW ds)
               + Z.abs (offset m st')
               <= Z.abs (offset m st) + Z.of_nat (length l)).
  { induction l as [|p rest IH]; intros st Hrow Hl.
    - exists st, []. cbn. split; [reflexivity | destruct m; cbn; lia].
    - inversion Hl as [|? ? Hp Hrest]; subst.
      destruct (decode_total m st p Hrow Hp) as (st1 & d & Hd).
      pose proof (step_rate m st p st1 d Hd) as Hstep.
      destruct (IH st1 (decode_row_range m st p st1 d Hd) Hrest)
        as (st' & ds & Hrun & Hb).
      exists st', (d :: ds). cbn [run]. rewrite Hd, Hrun.
      split; [reflexivity|].
      rewrite Nat2Z.inj_add, !events_cons. rewrite Nat2Z.inj_add in Hb.
      rewrite turn_abs in Hstep. cbn [length]. rewrite Nat2Z.inj_succ.
      destruct (DIR_CW =? d), (DIR_CCW =? d); lia. }
  assert (Hrow0 : 0 <= row R_START < rows m).
  { destruct m; vm_compute; intuition discriminate. }
  destruct (Hgen samples R_START Hrow0 Hs) as (st & ds & Hrun & Hb).
  exists st, ds. split; [exact Hrun|].
  assert (Ho0 : offset m R_START = 0) by (destruct m; reflexivity).
  rewrite Ho0 in Hb. cbn in Hb. lia.
Qed.

Lemma event_rate_bounded_witness :
  exists st ds,
    run FullStep R_START [2; 3; 1; 0; 3; 1; 0; 1; 3; 2; 0] = Some (st, ds) /\
    per FullStep * Z.of_nat (events DIR_CW ds + events DIR_CCW ds)
    + Z.abs (offset FullStep st) <= Z.of_nat 11.
Proof.
  assert (Hs : Forall sample [2; 3; 1; 0; 3; 1; 0; 1; 3; 2; 0]).
  { repeat constructor; discriminate. }
  exact (event_rate_bounded FullStep [2; 3; 1; 0; 3; 1; 0; 1; 3; 2; 0] Hs).
Defined.

(** X4. The decoder recovers from any input: after arbitrary samples,
    one sample of a detent code (00, or 11 in half-step mode) puts it in
    the detent row of that code, and from there on it counts a jump-free
    input exactly, as if nothing had happened before. *)
Theorem resync_at_detent_code
  (m : step_mode) (noise tail : list Z) (c : Z) :
  Forall sample noise -> Forall sample tail ->
  c = 0 \/ (m = HalfStep /\ c = 3) ->
  legal c tail = true ->
  exists st0 ds0 st' ds',
    run m R_START (noise ++ [c]) = Some (st0, ds0) /\
    settled m st0 = true /\ code m st0 = c /\
    run m R_START (noise ++ c :: tail) = Some (st', ds0 ++ ds') /\
    position c tail = per m * net ds' + offset m st'.
Proof.
  intros Hn Ht Hc Hl.
  assert (Hcs : sample c).
  { destruct Hc as [-> | [_ ->]]; split; (discriminate || reflexivity). }
  destruct (run_total m noise R_START (reach_init m) Hn) as (s & ds & Hrun).
  pose proof (reachable_run m noise R_START s ds (reach_init m) Hn Hrun)
    as Hreach.
  destruct (decode_total m s c (reachable_row m s Hreach) Hcs)
    as (st0 & d0 & Hd).
  assert (Hst0 : settled m st0 = true /\ code m st0 = c /\ offset m st0 = 0).
  { destruct Hc as [-> | [-> ->]].
    - by_table Hd; vm_compute; repeat split; reflexivity.
    - by_table Hd; vm_compute; repeat split; reflexivity. }
  destruct Hst0 as (Hset & Hcode & Hoff).
  rewrite <- Hcode in Hl.
  destruct (position_tracked m tail st0 (decode_row_range m s c st0 d0 Hd)
              Ht Hl) as (st' & ds' & Hrun' & Hpos).
  exists st0, (ds ++ [d0]), st', ds'.
  assert (Hfirst : run m R_START (noise ++ [c]) = Some (st0, ds ++ [d0])).
  { rewrite run_app, Hrun. cbn [run]. rewrite Hd. reflexivity. }
  split; [exact Hfirst|]. split; [exact Hset|]. split; [exact Hcode|].
  split.
  - change (noise ++ c :: tail) with (noise ++ [c] ++ tail).
    rewrite app_assoc, run_app, Hfirst, Hrun'. reflexivity.
  - rewrite Hcode, Hoff in Hpos. lia.
Qed.

Lemma resync_at_detent_code_witness :
  exists st0 ds0 st' ds',
    run HalfStep R_START ([1; 2; 1; 0; 3; 0] ++ [3]) = Some (st0, ds0) /\
    settled HalfStep st0 = true /\ code HalfStep st0 = 3 /\
    run HalfStep R_START ([1; 2; 1; 0; 3; 0] ++ 3 :: [1; 0; 2; 3])
    = Some (st', ds0 ++ ds') /\
    position 3 [1; 0; 2; 3] = per HalfStep * net ds' + offset HalfStep st'.
Proof.
  assert (Hn : Forall sample [1; 2; 1; 0; 3; 0]).
  { repeat constructor; discriminate. }
  assert (Ht : Forall sample [1; 0; 2; 3]).
  { repeat constructor; discriminate. }
  exact (resync_at_detent_code HalfStep [1; 2; 1; 0; 3; 0] [1; 0; 2; 3] 3
           Hn Ht (or_intror (conj eq_refl eq_refl)) eq_refl).
Defined.

(** X5. An event always agrees with the movement just seen: DIR_CW is
    returned only on a sample one quarter step clockwise of the previous
    sample and DIR_CCW only on one a quarter step counter-clockwise; the
    call that returns an event leaves the decoder in a detent row, and
    the call after it returns DIR_NONE whatever it samples. *)
Theorem event_agrees_with_step (m : step_mode) (pre : list Z) (q p : Z) :
  Forall sample pre -> sample q -> sample p ->
  exists st ds st' d,
    run m R_START (pre ++ [q]) = Some (st, ds) /\
    decode m st p = Some (st', d) /\
    (d = DIR_CW -> quarter q p = 1) /\
    (d = DIR_CCW -> quarter q p = -1) /\
    (d <> DIR_NONE ->
       settled m st' = true /\
       forall p', sample p' ->
         exists st'', decode m st' p' = Some (st'', DIR_NONE)).
Proof.
  intros Hpre Hq Hp.
  destruct (run_total m pre R_START (reach_init m) Hpre) as (s0 & ds0 & Hrun).
  pose proof (reachable_run m pre R_START s0 ds0 (reach_init m) Hpre Hrun)
    as Hr0.
  destruct (decode_total m s0 q (reachable_row m s0 Hr0) Hq)
    as (st & dq & Hdq).
  pose proof (decode_row_range m s0 q st dq Hdq) as Hrow.
  destruct (decode_total m st p Hrow Hp) as (st' & d & Hd).
  exists st, (ds0 ++ [dq]), st', d.
  split; [rewrite run_app, Hrun; cbn [run]; rewrite Hdq; reflexivity|].
  split; [exact Hd|].
  pose proof (entered_on_code m s0 q st dq Hdq) as Hcode.
  assert (Hnext : d <> DIR_NONE ->
                  forall p', sample p' ->
                    exists st'', decode m st' p' = Some (st'', DIR_NONE)).
  { intros Hne p' Hp'.
    destruct (decode_total m st' p' (decode_row_range m st p st' d Hd) Hp')
      as (st'' & d' & Hd').
    exists st''. rewrite Hd'. f_equal. f_equal.
    clear Hcode Hdq Hrow.
    by_table Hd; try (exfalso; apply Hne; reflexivity);
      unfold sample in Hp';
      assert (Hc : p' = 0 \/ p' = 1 \/ p' = 2 \/ p' = 3) by lia;
      destruct Hc as [-> | [-> | [-> | ->]]];
      vm_compute in Hd'; injection Hd' as _ <-; reflexivity. }
  clear Hdq Hrow Hr0 Hrun.
  by_table Hd; unfold settled, code in Hcode; rewrite <- Erow in Hcode;
    vm_compute in Hcode;
    (split; [intro Hx; try discriminate Hx;
             rewrite (Hcode eq_refl); reflexivity|]);
    (split; [intro Hx; try discriminate Hx;
             rewrite (Hcode eq_refl); reflexivity|]);
    intro Hne; (split; [|exact (Hnext Hne)]);
    first [reflexivity | exfalso; apply Hne; reflexivity].
Qed.

Lemma event_agrees_with_step_witness :
  exists st ds st' d,
    run FullStep R_START ([2; 3] ++ [1]) = Some (st, ds) /\
    decode FullStep st 0 = Some (st', d) /\
    (d = DIR_CW -> quarter 1 0 = 1) /\
    (d = DIR_CCW -> quarter 1 0 = -1) /\
    (d <> DIR_NONE ->
       settled FullStep st' = true /\
       forall p', sample p' ->
         exists st'', decode FullStep st' p' = Some (st'', DIR_NONE)).
Proof.
  assert (Hpre : Forall sample [2; 3]) by (repeat constructor; discriminate).
  assert (Hq : sample 1) by (split; [discriminate | reflexivity]).
  assert (Hp : sample 0) by (split; [discriminate | reflexivity]).
  exact (event_agrees_with_step FullStep [2; 3] 1 0 Hpre Hq Hp).
Defined.


(** * Further properties of the push button *)

Section ButtonSteps.

Lemma released_keeps_pin (d : Z) (hw : Board) (r : Rotary) :
  buttonPin (fst (buttonPressedReleased d hw r)) = buttonPin r.
Proof.
  unfold buttonPressedReleased.
  repeat match goal with
         | |- context [if ?b then _ else _] => destruct b
         end; reflexivity.
Qed.

Lemma held_keeps_pin (d : Z) (hw : Board) (r : Rotary) :
  buttonPin (fst (buttonPressedHeld d hw r)) = buttonPin r.
Proof.
  unfold buttonPressedHeld.
  repeat match goal with
         | |- context [if ?b then _ else _] => destruct b
         end; reflexivity.
Qed.

(** What one call of [buttonPressedReleased] does from the two regular
    values of buttonState. *)
Lemma released_step (d : Z) (hw : Board) (r : Rotary) :
  idle_or_pressed r ->
  buttonPressedReleased d hw r =
  if buttonState r =? BUTTON_PRESSED then
    if timer_expired hw r d && reads_high hw (buttonPin r)
    then (set_buttonState r BUTTON_RESET, true)
    else (r, false)
  else
    if reads_high hw (buttonPin r) then (r, false)
    else (set_buttonTimer (set_buttonState r BUTTON_PRESSED) (millis hw),
          false).
Proof.
  intros [Hb | Hb]; unfold buttonPressedReleased; rewrite Hb; cbn.
  - destruct (reads_high hw (buttonPin r)); cbn; rewrite ?Hb; reflexivity.
  - destruct (timer_expired hw r d), (reads_high hw (buttonPin r));
      cbn; rewrite ?Hb; reflexivity.
Qed.

(** A report leaves buttonState at Reset. *)
Lemma report_resets (hw : Board) (r : Rotary) (d : Z) :
  (snd (buttonPressedReleased d hw r) = true ->
   buttonState (fst (buttonPressedReleased d hw r)) = BUTTON_RESET) /\
  (snd (buttonPressedHeld d hw r) = true ->
   buttonState (fst (buttonPressedHeld d hw r)) = BUTTON_RESET).
Proof.
  unfold buttonPressedReleased, buttonPressedHeld. split;
    repeat match goal with
           | |- context [if ?b then _ else _] => destruct b
           end; cbn; intros; (reflexivity || discriminate).
Qed.

(** From Reset the first call of either query reports nothing. *)
Lemma first_call_silent (hw : Board) (r : Rotary) (d : Z) :
  buttonState r = BUTTON_RESET ->
  snd (buttonPressedReleased d hw r) = false /\
  snd (buttonPressedHeld d hw r) = false.
Proof.
  intros Hb. unfold buttonPressedReleased, buttonPressedHeld.
  rewrite Hb. cbn.
  destruct (reads_high hw (buttonPin r)); cbn; rewrite ?Hb;
    split; reflexivity.
Qed.

End ButtonSteps.

(** X8. Neither query reports twice in a row: a call of
    [buttonPressedReleased] or [buttonPressedHeld] that returns true
    leaves buttonState at Reset, and the next call of either query
    returns false whatever the board shows and whatever delay is
    passed. *)
Theorem report_then_silence
  (query : Z -> Board -> Rotary -> Rotary * bool)
  (d1 d2 : Z) (hw1 hw2 : Board) (r : Rotary) :
  query = buttonPressedReleased \/ query = buttonPressedHeld ->
  snd (query d1 hw1 r) = true ->
  buttonState (fst (query d1 hw1 r)) = BUTTON_RESET /\
  snd (buttonPressedReleased d2 hw2 (fst (query d1 hw1 r))) = false /\
  snd (buttonPressedHeld d2 hw2 (fst (query d1 hw1 r))) = false.
Proof.
  intros Hq Ht.
  assert (Hb : buttonState (fst (query d1 hw1 r)) = BUTTON_RESET).
  { destruct Hq as [-> | ->];
      [exact (proj1 (report_resets hw1 r d1) Ht)
      |exact (proj2 (report_resets hw1 r d1) Ht)]. }
  split; [exact Hb|].
  exact (first_call_silent hw2 (fst (query d1 hw1 r)) d2 Hb).
Qed.

Lemma report_then_silence_witness :
  let r := mkRotary 0 2 3 4 BUTTON_PRESSED 0 in
  let hw1 := mkBoard (fun _ => LOW) 10 in
  let hw2 := mkBoard (fun _ => LOW) 5000 in
  snd (buttonPressedHeld 5 hw1 r) = true /\
  buttonState (fst (buttonPressedHeld 5 hw1 r)) = BUTTON_RESET /\
  snd (buttonPressedReleased 5 hw2 (fst (buttonPressedHeld 5 hw1 r))) = false /\
  snd (buttonPressedHeld 5 hw2 (fst (buttonPressedHeld 5 hw1 r))) = false.
Proof.
  intros r hw1 hw2.
  split; [reflexivity|].
  exact (report_then_silence buttonPressedHeld 5 5 hw1 hw2 r
           (or_intror eq_refl) eq_refl).
Defined.

(** X9. Whatever the host calls on the button and in whatever order
    ([buttonPressedReleased], [buttonPressedHeld], [readButton],
    [resetButton], with any delays, on any boards), a buttonState that
    is Reset or Pressed stays Reset or Pressed (the composite
    Pressed|Released value never survives a call), and the decoder
    state and the three pin numbers are never touched. *)
Theorem button_calls_keep_shape
  (calls : list (button_call * Board)) (r : Rotary) :
  idle_or_pressed r ->
  idle_or_pressed (perform_all calls r) /\
  state (perform_all calls r) = state r /\
  pin1 (perform_all calls r) = pin1 r /\
  pin2 (perform_all calls r) = pin2 r /\
  buttonPin (perform_all calls r) = buttonPin r.
Proof.
  revert r. induction calls as [|[c hw] rest IH]; intros r Hi.
  - repeat split; (exact Hi || reflexivity).
  - cbn [perform_all].
    assert (Hstep : idle_or_pressed (perform c hw r) /\
                    state (perform c hw r) = state r /\
                    pin1 (perform c hw r) = pin1 r /\
                    pin2 (perform c hw r) = pin2 r /\
                    buttonPin (perform c hw r) = buttonPin r).
    { destruct c as [d | d | |]; cbn [perform].
      - rewrite (released_step d hw r Hi). unfold idle_or_pressed.
        repeat match goal with
               | |- context [if ?b then _ else _] => destruct b
               end; cbn; repeat split; auto.
      - unfold buttonPressedHeld, idle_or_pressed.
        repeat match goal with
               | |- context [if ?b then _ else _] => destruct b
               end; cbn; repeat split; auto.
      - unfold readButton.
        destruct (reads_high hw (buttonPin r)); cbn; repeat split; auto.
      - unfold resetButton, idle_or_pressed. cbn. repeat split; auto. }
    destruct Hstep as (H1 & H2 & H3 & H4 & H5).
    destruct (IH (perform c hw r) H1) as (I1 & I2 & I3 & I4 & I5).
    repeat split; [exact I1 | congruence ..].
Qed.

Lemma button_calls_keep_shape_witness :
  let r := mkRotary Half.R_CW_BEGIN 2 3 4 BUTTON_RESET 0 in
  let calls := [(CallPressedReleased 5, mkBoard (fun _ => LOW) 10);
                (CallPressedHeld 3, mkBoard (fun _ => LOW) 20);
                (CallPressedReleased 5, mkBoard (fun _ => HIGH) 30);
                (CallResetButton, mkBoard (fun _ => HIGH) 31);
                (CallReadButton, mkBoard (fun _ => LOW) 32)] in
  idle_or_pressed (perform_all calls r) /\
  state (perform_all calls r) = state r /\
  pin1 (perform_all calls r) = pin1 r /\
  pin2 (perform_all calls r) = pin2 r /\
  buttonPin (perform_all calls r) = buttonPin r.
Proof.
  intros r calls.
  exact (button_calls_keep_shape calls r (or_introl eq_refl)).
Defined.

Section Counting.

Lemma reports_cons (b : bool) (bs : list bool) :
  reports (b :: bs) = ((if b then 1 else 0) + reports bs)%nat.
Proof. unfold reports. cbn [filter]. destruct b; reflexivity. Qed.

Lemma no_reports_in_silence (k : nat) : filter id (repeat false k) = [].
Proof.
  induction k as [|k IH]; [reflexivity|].
  cbn [repeat filter]. unfold id at 1. exact IH.
Qed.

Lemma closed_readings_cons (pin : Z) (hw : Board) (boards : list Board) :
  closed_readings pin (hw :: boards)
  = ((if reads_high hw pin then 0 else 1) + closed_readings pin boards)%nat.
Proof.
  unfold closed_readings. cbn [filter].
  destruct (reads_high hw pin); reflexivity.
Qed.

End Counting.

(** X10. [buttonPressedReleased] never reports more releases than it saw
    presses: over any boards and with any delay, from a buttonState that
    is Reset or Pressed, the number of true results is at most the
    number of boards on which the button line reads closed, plus one if
    a press was already pending; after [resetButton] it is at most the
    number of closed readings. *)
Theorem releases_need_presses
  (d : Z) (boards : list Board) (r : Rotary) :
  idle_or_pressed r ->
  (reports (snd (poll (buttonPressedReleased d) boards r))
   <= closed_readings (buttonPin r) boards
      + (if (buttonState r =? BUTTON_PRESSED)%Z then 1 else 0))%nat /\
  (reports (snd (poll (buttonPressedReleased d) boards (resetButton r)))
   <= closed_readings (buttonPin r) boards)%nat.
Proof.
  assert (Hgen : forall bl r0,
             idle_or_pressed r0 ->
             (reports (snd (poll (buttonPressedReleased d) bl r0))
              <= closed_readings (buttonPin r0) bl
                 + (if (buttonState r0 =? BUTTON_PRESSED)%Z then 1 else 0))%nat).
  { induction bl as [|hw rest IH]; intros r0 Hi.
    - cbn. lia.
    - cbn [poll].
      pose proof (released_step d hw r0 Hi) as Hstep.
      pose proof (released_keeps_pin d hw r0) as Hpin.
      destruct (buttonPressedReleased d hw r0) as [r1 b] eqn:Hq.
      cbn [fst] in Hpin.
      assert (Hi1 : idle_or_pressed r1).
      { revert Hstep. unfold idle_or_pressed in *.
        repeat match goal with
               | |- context [if ?c then _ else _] => destruct c
               end; intros E; injection E as -> _; cbn; auto. }
      specialize (IH r1 Hi1). rewrite Hpin in IH.
      destruct (poll (buttonPressedReleased d) rest r1) as [r2 bs].
      cbn [snd] in *. rewrite reports_cons, closed_readings_cons.
      revert Hstep IH.
      destruct (buttonState r0 =? BUTTON_PRESSED) eqn:Eb0.
      + destruct (timer_expired hw r0 d && reads_high hw (buttonPin r0))
          eqn:Ex; intros E; injection E as -> ->.
        * apply andb_true_iff in Ex as [_ Hh]. rewrite Hh.
          cbn [buttonState set_buttonState]. cbn. lia.
        * rewrite Eb0. destruct (reads_high hw (buttonPin r0)); lia.
      + destruct (reads_high hw (buttonPin r0));
          intros E; injection E as -> ->.
        * rewrite Eb0. lia.
        * cbn [buttonState set_buttonState set_buttonTimer]. cbn. lia. }
  intros Hi. split.
  - exact (Hgen boards r Hi).
  - pose proof (Hgen boards (resetButton r) (or_introl eq_refl)) as H.
    cbn in H. rewrite Nat.add_0_r in H. exact H.
Qed.

Lemma releases_need_presses_witness :
  let r := mkRotary 0 2 3 4 BUTTON_RESET 0 in
  let boards := [mkBoard (fun _ => LOW) 0; mkBoard (fun _ => HIGH) 9;
                 mkBoard (fun _ => HIGH) 10; mkBoard (fun _ => HIGH) 30;
                 mkBoard (fun _ => LOW) 31; mkBoard (fun _ => HIGH) 50] in
  (reports (snd (poll (buttonPressedReleased 5) boards r))
   <= closed_readings (buttonPin r) boards
      + (if (buttonState r =? BUTTON_PRESSED)%Z then 1 else 0))%nat /\
  (reports (snd (poll (buttonPressedReleased 5) boards (resetButton r)))
   <= closed_readings (buttonPin r) boards)%nat.
Proof.
  intros r boards.
  exact (releases_need_presses 5 boards r (or_introl eq_refl)).
Defined.

(** X11. [buttonPressedHeld] needs two closed readings per report, the
    one that starts the timer and the one that finds it expired: over
    any boards, with any delay and from any buttonState, twice the
    number of true results is at most the number of boards on which the
    line reads closed, plus one if the button was already marked
    Pressed. *)
Theorem holds_need_closed_readings
  (d : Z) (boards : list Board) (r : Rotary) :
  (2 * reports (snd (poll (buttonPressedHeld d) boards r))
   <= closed_readings (buttonPin r) boards
      + (if (buttonState r =? BUTTON_PRESSED)%Z then 1 else 0))%nat.
Proof.
  revert r. induction boards as [|hw rest IH]; intros r.
  - cbn. lia.
  - cbn [poll].
    pose proof (held_keeps_pin d hw r) as Hpin.
    assert (Hstep : buttonPressedHeld d hw r =
              if negb (reads_high hw (buttonPin r)) then
                if negb (buttonState r =? BUTTON_PRESSED) then
                  (set_buttonTimer (set_buttonState r BUTTON_PRESSED)
                                   (millis hw), false)
                else if timer_expired hw r d
                     then (set_buttonState r BUTTON_RESET, true)
                     else (r, false)
              else if buttonState r =? BUTTON_PRESSED
                   then (set_buttonState r BUTTON_RESET, false)
                   else (r, false)) by reflexivity.
    destruct (buttonPressedHeld d hw r) as [r1 b].
    cbn [fst] in Hpin. specialize (IH r1). rewrite Hpin in IH.
    destruct (poll (buttonPressedHeld d) rest r1) as [r2 bs].
    cbn [snd] in *. rewrite reports_cons, closed_readings_cons.
    revert Hstep IH.
    destruct (reads_high hw (buttonPin r)); cbn [negb];
      destruct (buttonState r =? BUTTON_PRESSED) eqn:Eb; cbn [negb].
    + intros E; injection E as -> ->. cbn. lia.
    + intros E; injection E as -> ->. rewrite Eb. lia.
    + destruct (timer_expired hw r d); intros E; injection E as -> ->.
      * cbn. lia.
      * rewrite Eb. lia.
    + intros E; injection E as -> ->. cbn. lia.
Qed.

Section LongPress.

Variable epoch : Z.

(** A pending press stays pending, and nothing is reported, as long as
    at every call the delay has not expired or the line still reads
    closed. *)
Lemma released_pending (delay : Z) (line : nat -> level) (t0 : nat)
  (r : Rotary) (n : nat) :
  0 <= delay -> short delay ->
  buttonState r = BUTTON_PRESSED ->
  buttonTimer r = to_ulong (epoch + Z.of_nat t0) ->
  forall e,
    Z.of_nat (e + n) <= 2 ^ 32 ->
    (forall t, (e <= t < e + n)%nat ->
               Z.of_nat t <= delay \/ line (t0 + t)%nat = LOW) ->
    poll (buttonPressedReleased delay) (ticks epoch line (t0 + e) n) r
    = (r, repeat false n).
Proof.
  intros H0 Hs Hb Ht. induction n as [|n IH]; intros e He Hline.
  - reflexivity.
  - rewrite ticks_cons. cbn [poll repeat].
    assert (Hq : buttonPressedReleased delay
                   (tick_board epoch line (t0 + e)) r = (r, false)).
    { rewrite (released_step delay _ r (or_intror Hb)). rewrite Hb.
      cbn [Z.eqb Pos.eqb BUTTON_PRESSED].
      rewrite (expired_at_tick epoch delay line t0 e r H0 Hs)
        by (first [assumption | lia]).
      destruct (Hline e ltac:(lia)) as [Hle | Hlow].
      - replace (delay <? Z.of_nat e) with false
          by (symmetry; apply Z.ltb_ge; lia).
        reflexivity.
      - unfold reads_high. cbn [digitalRead tick_board]. rewrite Hlow.
        cbn. rewrite andb_false_r. reflexivity. }
    rewrite Hq.
    replace (S (t0 + e)) with (t0 + S e)%nat by lia.
    rewrite (IH (S e)); [reflexivity | lia |].
    intros t Hr. apply Hline. lia.
Qed.

End LongPress.

(** X12. The debounce delay is a minimum dwell, not a window: with
    buttonState at Reset, the line closed for [len] >= 1 ticks and open
    afterwards, [buttonPressedReleased] called once per millisecond
    reports exactly once, at tick max [len] ([debounce_delay] + 1): at
    the release itself when the press was longer than the delay (however
    long, below 2^32 ms), and at the first tick past the delay when the
    press was shorter. *)
Theorem release_reported_when_due
  (epoch debounce_delay : Z) (len k : nat) (r : Rotary) :
  0 <= debounce_delay -> short debounce_delay ->
  (1 <= len)%nat -> Z.of_nat len < 2 ^ 32 ->
  buttonState r = BUTTON_RESET ->
  let due := Nat.max len (Z.to_nat debounce_delay + 1) in
  exists r1,
    poll (buttonPressedReleased debounce_delay)
         (ticks epoch (closed_for len) 0 (due + 1 + k)) r
    = (r1, repeat false due ++ [true] ++ repeat false k) /\
    buttonState r1 = BUTTON_RESET.
Proof.
  intros H0 Hs Hlen Hbig Hb due.
  set (line := closed_for len).
  set (rp := set_buttonTimer (set_buttonState r BUTTON_PRESSED)
                             (to_ulong (epoch + Z.of_nat 0))).
  set (r1 := set_buttonState rp BUTTON_RESET).
  assert (Hbp : buttonState rp = BUTTON_PRESSED) by reflexivity.
  assert (Htp : buttonTimer rp = to_ulong (epoch + Z.of_nat 0))
    by reflexivity.
  assert (Hdue : (1 <= due)%nat /\ (len <= due)%nat /\
                 debounce_delay < Z.of_nat due /\ Z.of_nat due < 2 ^ 32).
  { unfold due, short in *. lia. }
  destruct Hdue as (Hd1 & Hd2 & Hd3 & Hd4).
  assert (Hfirst : buttonPressedReleased debounce_delay
                     (tick_board epoch line 0) r = (rp, false)).
  { rewrite (released_step _ _ r (or_introl Hb)). rewrite Hb.
    unfold reads_high. cbn [digitalRead tick_board millis].
    unfold line, closed_for.
    replace (0 <? len)%nat with true by (symmetry; apply Nat.ltb_lt; lia).
    reflexivity. }
  assert (Hwait : poll (buttonPressedReleased debounce_delay)
                       (ticks epoch line 1 (due - 1)) rp
                  = (rp, repeat false (due - 1))).
  { apply (released_pending epoch debounce_delay line 0 rp (due - 1)
             H0 Hs Hbp Htp 1%nat); [lia|].
    intros t Ht. cbn [Nat.add]. unfold line, closed_for.
    destruct (Nat.ltb_spec t len) as [Hlt | Hge]; [right; reflexivity|].
    left. unfold due in Ht. lia. }
  assert (Hfire : buttonPressedReleased debounce_delay
                    (tick_board epoch line due) rp = (r1, true)).
  { rewrite (released_step _ _ rp (or_intror Hbp)). rewrite Hbp.
    cbn [Z.eqb Pos.eqb BUTTON_PRESSED].
    change due with (0 + due)%nat at 1.
    rewrite (expired_at_tick epoch debounce_delay line 0 due rp H0 Hs)
      by (first [assumption | lia]).
    replace (debounce_delay <? Z.of_nat due) with true
      by (symmetry; apply Z.ltb_lt; lia).
    unfold reads_high. cbn [digitalRead tick_board].
    unfold line, closed_for.
    replace (due <? len)%nat with false
      by (symmetry; apply Nat.ltb_ge; lia).
    reflexivity. }
  assert (Hb1 : buttonState r1 = BUTTON_RESET) by reflexivity.
  assert (Hidle : poll (buttonPressedReleased debounce_delay)
                       (ticks epoch line (S due) k) r1
                  = (r1, repeat false k)).
  { apply released_idle; [exact Hb1|].
    intros t Ht. unfold line, closed_for.
    replace (t <? len)%nat with false by (symmetry; apply Nat.ltb_ge; lia).
    reflexivity. }
  exists r1. split; [|exact Hb1].
  replace (due + 1 + k)%nat with (S ((due - 1) + (1 + k)))%nat by lia.
  rewrite ticks_cons. cbn [poll]. rewrite Hfirst.
  rewrite ticks_app, poll_app, Hwait.
  replace (1 + (due - 1))%nat with due by lia.
  change (1 + k)%nat with (S k). rewrite ticks_cons. cbn [poll].
  rewrite Hfire, Hidle.
  replace (repeat false due) with (false :: repeat false (due - 1))
    by (replace due with (S (due - 1)) at 2 by lia; reflexivity).
  reflexivity.
Qed.

Lemma release_reported_when_due_witness :
  let r := mkRotary 0 2 3 4 BUTTON_RESET 0 in
  exists r1,
    poll (buttonPressedReleased 2) (ticks (2 ^ 32 - 3) (closed_for 6) 0 9) r
    = (r1, [false; false; false; false; false; false; true; false; false]) /\
    buttonState r1 = BUTTON_RESET.
Proof.
  intros r.
  assert (H0 : 0 <= 2) by discriminate.
  assert (Hs : short 2) by (split; discriminate).
  assert (Hl : (1 <= 6)%nat) by (repeat constructor).
  assert (Hbig : Z.of_nat 6 < 2 ^ 32) by reflexivity.
  exact (release_reported_when_due (2 ^ 32 - 3) 2 6 2 r H0 Hs Hl Hbig eq_refl).
Defined.

(** X13. A button that is kept down reports again and again: with the
    line closed throughout and [buttonPressedHeld threshold] called once
    per millisecond, the calls return false [threshold + 1] times and
    then true, in every one of any number of consecutive periods of
    [threshold + 2] ticks; the object ends each period at Reset. *)
Theorem held_reports_periodically
  (epoch threshold : Z) (periods : nat) (r : Rotary) :
  0 <= threshold -> short threshold ->
  buttonState r <> BUTTON_PRESSED ->
  let n := Z.to_nat threshold in
  exists r',
    poll (buttonPressedHeld threshold)
         (ticks epoch held_line 0 (periods * (n + 2))) r
    = (r', concat (repeat (repeat false (n + 1) ++ [true]) periods)) /\
    buttonState r' <> BUTTON_PRESSED /\
    reports (concat (repeat (repeat false (n + 1) ++ [true]) periods))
    = periods.
Proof.
  intros H0 Hs Hb n.
  assert (Hgen : forall k a r0,
             buttonState r0 <> BUTTON_PRESSED ->
             exists r',
               poll (buttonPressedHeld threshold)
                    (ticks epoch held_line a (k * (n + 2))) r0
               = (r', concat (repeat (repeat false (n + 1) ++ [true]) k)) /\
               buttonState r' <> BUTTON_PRESSED).
  { induction k as [|k IH]; intros a r0 Hb0.
    - exists r0. split; [reflexivity | exact Hb0].
    - destruct (held_cycle epoch threshold a r0 H0 Hs Hb0) as [Hw Hf].
      fold n in Hw, Hf. cbn zeta in Hw, Hf.
      set (rp := set_buttonTimer (set_buttonState r0 BUTTON_PRESSED)
                   (to_ulong (epoch + Z.of_nat a))) in *.
      assert (Hb1 : buttonState (set_buttonState rp BUTTON_RESET)
                    <> BUTTON_PRESSED) by discriminate.
      destruct (IH (a + (n + 2))%nat (set_buttonState rp BUTTON_RESET) Hb1)
        as (r' & Hrest & Hb').
      exists r'. split; [|exact Hb'].
      replace (S k * (n + 2))%nat with ((n + 1) + (1 + k * (n + 2)))%nat
        by lia.
      rewrite ticks_app, poll_app, Hw.
      change (1 + k * (n + 2))%nat with (S (k * (n + 2))).
      rewrite ticks_cons. cbn [poll]. rewrite Hf.
      replace (S (a + (n + 1))) with (a + (n + 2))%nat by lia.
      rewrite Hrest. cbn [repeat concat]. rewrite <- app_assoc.
      reflexivity. }
  destruct (Hgen periods 0%nat r Hb) as (r' & Hpoll & Hb').
  exists r'. split; [exact Hpoll|]. split; [exact Hb'|].
  clear. induction periods as [|k IH]; [reflexivity|].
  cbn [repeat concat]. unfold reports in *.
  rewrite !filter_app, !length_app, IH.
  rewrite (no_reports_in_silence (n + 1)). reflexivity.
Qed.

Lemma held_reports_periodically_witness :
  let r := mkRotary 0 2 3 4 BUTTON_RESET 0 in
  exists r',
    poll (buttonPressedHeld 1) (ticks (2 ^ 32 - 4) held_line 0 9) r
    = (r', [false; false; true; false; false; true; false; false; true]) /\
    buttonState r' <> BUTTON_PRESSED /\
    reports [false; false; true; false; false; true; false; false; true]
    = 3%nat.
Proof.
  intros r.
  assert (H0 : 0 <= 1) by discriminate.
  assert (Hs : short 1) by (split; discriminate).
  assert (Hb : buttonState r <> BUTTON_PRESSED) by discriminate.
  exact (held_reports_periodically (2 ^ 32 - 4) 1 3 r H0 Hs Hb).
Defined.

(** X14. A negative delay does not make the queries fire at once: the
    [short] is converted to [unsigned long], so for a negative delay the
    timer test is false for every press younger than 2^32 - 32768 ms;
    [buttonPressedHeld] then returns false, and so does
    [buttonPressedReleased] from a buttonState that is Reset or
    Pressed. *)
Theorem negative_delay_never_expires
  (delay t0 e : Z) (hw : Board) (r : Rotary) :
  delay < 0 -> short delay -> 0 <= e < 2 ^ 32 - 32768 ->
  buttonTimer r = to_ulong t0 -> millis hw = to_ulong (t0 + e) ->
  timer_expired hw r delay = false /\
  snd (buttonPressedHeld delay hw r) = false /\
  (idle_or_pressed r -> snd (buttonPressedReleased delay hw r) = false).
Proof.
  intros Hneg Hs He Ht Hm.
  assert (Hx : timer_expired hw r delay = false).
  { unfold timer_expired. rewrite Ht, Hm, to_ulong_elapsed.
    rewrite (to_ulong_small e) by lia.
    apply Z.ltb_ge. unfold to_ulong, short in *.
    replace delay with (delay + 2 ^ 32 + (-1) * 2 ^ 32) by lia.
    rewrite Z.mod_add by lia. rewrite Z.mod_small; lia. }
  split; [exact Hx|]. split.
  - unfold buttonPressedHeld. rewrite Hx.
    repeat match goal with
           | |- context [if ?b then _ else _] => destruct b
           end; reflexivity.
  - intros Hi. rewrite (released_step delay hw r Hi), Hx. cbn [andb].
    repeat match goal with
           | |- context [if ?b then _ else _] => destruct b
           end; reflexivity.
Qed.

Lemma negative_delay_never_expires_witness :
  let r := mkRotary 0 2 3 4 BUTTON_PRESSED 100 in
  let hw := mkBoard (fun _ => LOW) 4000000100 in
  timer_expired hw r (-1) = false /\
  snd (buttonPressedHeld (-1) hw r) = false /\
  (idle_or_pressed r -> snd (buttonPressedReleased (-1) hw r) = false).
Proof.
  intros r hw.
  assert (Hn : -1 < 0) by reflexivity.
  assert (Hs : short (-1)) by (split; discriminate).
  assert (He : 0 <= 4000000000 < 2 ^ 32 - 32768)
    by (split; [discriminate | reflexivity]).
  exact (negative_delay_never_expires (-1) 100 4000000000 hw r
           Hn Hs He eq_refl eq_refl).
Defined.

Section Mirror.

Lemma row_mirror_state (m : step_mode) (st : Z) :
  row (mirror_state m st) = mirror_row m (row st).
Proof.
  unfold mirror_state, row at 1. rewrite Z.land_lor_distr_l.
  fold (row (mirror_row m (row st))).
  assert (Hd : Z.land (mirror_dir (Z.land st 48)) 15 = 0).
  { unfold mirror_dir.
    destruct (Z.land st 48 =? DIR_CW); [reflexivity|].
    destruct (Z.land st 48 =? DIR_CCW); reflexivity. }
  rewrite Hd, Z.lor_0_r.
  unfold mirror_row.
  destruct m;
    repeat match goal with
           | |- context [if ?b then _ else _] => destruct b
           end; try reflexivity; apply row_idem.
Qed.

(** With the wires exchanged the table does the same in mirror image. *)
Lemma mirror_step (m : step_mode) (st p st' d : Z) :
  decode m st p = Some (st', d) ->
  decode m (mirror_state m st) (swap_pins p)
  = Some (mirror_state m st', mirror_dir d).
Proof.
  intros Hd. rewrite decode_row, row_mirror_state.
  by_table Hd; rewrite <- Erow; reflexivity.
Qed.

Lemma mirror_dir_eqb (d : Z) :
  (DIR_CW =? mirror_dir d) = (DIR_CCW =? d) /\
  (DIR_CCW =? mirror_dir d) = (DIR_CW =? d).
Proof.
  unfold mirror_dir.
  destruct (Z.eqb_spec d DIR_CW) as [->|H1]; [split; reflexivity|].
  destruct (Z.eqb_spec d DIR_CCW) as [->|H2]; [split; reflexivity|].
  destruct (Z.eqb_spec DIR_CCW d) as [E|_];
    [exfalso; apply H2; symmetry; exact E|].
  destruct (Z.eqb_spec DIR_CW d) as [E|_];
    [exfalso; apply H1; symmetry; exact E|].
  split; reflexivity.
Qed.

End Mirror.

(** X15. Exchanging the two encoder wires reverses the direction and
    nothing else: for every sample sequence, feeding the samples with
    their two bits exchanged returns, call by call, DIR_CCW where the
    original run returns DIR_CW and DIR_CW where it returns DIR_CCW,
    and ends in the mirror-image state. *)
Theorem swapped_wires_reverse_direction
  (m : step_mode) (samples : list Z) :
  Forall sample samples ->
  exists st ds,
    run m R_START samples = Some (st, ds) /\
    run m R_START (map swap_pins samples)
    = Some (mirror_state m st, map mirror_dir ds) /\
    events DIR_CW (map mirror_dir ds) = events DIR_CCW ds /\
    events DIR_CCW (map mirror_dir ds) = events DIR_CW ds.
Proof.
  intros Hs.
  assert (Hgen : forall l st0 st ds,
             run m st0 l = Some (st, ds) ->
             run m (mirror_state m st0) (map swap_pins l)
             = Some (match l with
                     | [] => mirror_state m st0
                     | _ => mirror_state m st
                     end, map mirror_dir ds)).
  { induction l as [|p rest IH]; intros st0 st ds Hrun.
    - cbn in Hrun. injection Hrun as <- <-. reflexivity.
    - cbn [run] in Hrun. cbn [map run].
      destruct (decode m st0 p) as [[st1 d]|] eqn:Hd; [|discriminate].
      destruct (run m st1 rest) as [[st2 ds2]|] eqn:Hr; [|discriminate].
      injection Hrun as <- <-.
      rewrite (mirror_step m st0 p st1 d Hd).
      rewrite (IH st1 st2 ds2 Hr). cbn [map].
      destruct rest; [|reflexivity].
      cbn in Hr. injection Hr as <- _. reflexivity. }
  destruct (run_total m samples R_START (reach_init m) Hs)
    as (st & ds & Hrun).
  exists st, ds. split; [exact Hrun|].
  split.
  - assert (H0 : mirror_state m R_START = R_START)
      by (destruct m; reflexivity).
    rewrite <- H0 at 1. rewrite (Hgen samples R_START st ds Hrun).
    destruct samples; [|reflexivity].
    cbn in Hrun. injection Hrun as <- _. reflexivity.
  - clear. unfold events.
    induction ds as [|d ds [IH1 IH2]]; [split; reflexivity|].
    cbn [map filter].
    destruct (mirror_dir_eqb d) as [-> ->].
    destruct (DIR_CCW =? d), (DIR_CW =? d); cbn [length];
      rewrite IH1, IH2; split; reflexivity.
Qed.

Lemma swapped_wires_reverse_direction_witness :
  exists st ds,
    run HalfStep R_START [2; 3; 1; 0; 1; 2; 3; 2; 0] = Some (st, ds) /\
    run HalfStep R_START (map swap_pins [2; 3; 1; 0; 1; 2; 3; 2; 0])
    = Some (mirror_state HalfStep st, map mirror_dir ds) /\
    events DIR_CW (map mirror_dir ds) = events DIR_CCW ds /\
    events DIR_CCW (map mirror_dir ds) = events DIR_CW ds.
Proof.
  assert (Hs : Forall sample [2; 3; 1; 0; 1; 2; 3; 2; 0]).
  { repeat constructor; discriminate. }
  exact (swapped_wires_reverse_direction HalfStep
           [2; 3; 1; 0; 1; 2; 3; 2; 0] Hs).
Defined.
